(** * chat-max: preference merge, credential bootstrap, presets, settings

    A shallow embedding of the parts of [chatmax-v0-4-5.py] that carry
    design content, and the properties stated about them:

    - [Text]        the string primitives the worker relies on
                    ([str.lower], [str.strip], [in], [str.split]) and
                    [pref_key];
    - [Prefs]       the preference merge of [send_message.worker];
    - [Store]       [settings.json] as [save_settings] and
                    [load_settings] see it;
    - [Credentials] the startup credential prompt of [build_main_window];
    - [Presets]     applying a personality preset, at startup and from
                    the Personality window;
    - [Dialogs]     the settings dialogs ([manage_api_key],
                    [manage_endpoint], [toggle_use_local], the model and
                    limit dialogs), the credential prompts they call
                    ([prompt_for_api_key], [prompt_for_endpoint]) and
                    the limits computed at startup;
    - [Chat]        the two histories, [_trim_history], the personality
                    instructions, the payload of [send_message] and the
                    worker's insertion of the preferences, saving and
                    loading a conversation;
    - [PresetNames] [determine_active_preset_name] and the preset
                    bookkeeping of the Personality window;
    - [PrefsFile]   [save_prefs_list], [load_prefs_list] and the lines
                    that the worker extracts.

    Conventions.  A Python [str] is a [string]; its characters are the
    code points U+0000..U+00FF.  A Python [int] is a [Z].  A [dict] with
    string keys is a [gmap string _].  [int(time.time())] is read from a
    clock that is passed in explicitly. *)

From Stdlib Require Import ZArith Ascii String.
From stdpp Require Import gmap strings list fin_maps pretty.

(* ===================================================================== *)
(** * Strings                                                             *)
(* ===================================================================== *)

Module Text.

(** [c.isspace()] on U+0000..U+00FF: TAB..CR, FS..US, SPACE, NEL, NBSP. *)
Definition is_space (c : ascii) : bool :=
  let n := N_of_ascii c in
  ((9 <=? n) && (n <=? 13) || (28 <=? n) && (n <=? 32)
   || (n =? 133) || (n =? 160))%N.

(** [c.lower()] on U+0000..U+00FF: A..Z and the Latin-1 capitals
    U+00C0..U+00DE (the multiplication sign U+00D7 apart) move up by 32. *)
Definition lower_char (c : ascii) : ascii :=
  let n := N_of_ascii c in
  if ((65 <=? n) && (n <=? 90)
      || (192 <=? n) && (n <=? 222) && negb (n =? 215))%N
  then ascii_of_N (n + 32) else c.

(** [s.lower()] *)
Fixpoint lower (s : string) : string :=
  match s with
  | EmptyString => EmptyString
  | String c s' => String (lower_char c) (lower s')
  end.

(** [s.lstrip()] *)
Fixpoint lstrip (s : string) : string :=
  match s with
  | EmptyString => EmptyString
  | String c s' => if is_space c then lstrip s' else s
  end.

(** [s.rstrip()]: a character is dropped when it is white space and
    nothing but white space follows it. *)
Fixpoint rstrip (s : string) : string :=
  match s with
  | EmptyString => EmptyString
  | String c s' =>
      match rstrip s' with
      | EmptyString => if is_space c then EmptyString else String c EmptyString
      | r => String c r
      end
  end.

(** [s.strip()] *)
Definition strip (s : string) : string := lstrip (rstrip s).

(** [s.find(sep)]: the index of the first occurrence of [sep] in [s]. *)
Fixpoint find (sep s : string) : option nat :=
  if String.prefix sep s then Some 0
  else match s with
       | EmptyString => None
       | String _ s' => S <$> find sep s'
       end.

(** [sep in s] *)
Definition contains (sep s : string) : bool :=
  match find sep s with Some _ => true | None => false end.

(** [s.split(sep, 1)]: one piece when [sep] does not occur, else the
    text before its first occurrence and the text after it. *)
Definition split1 (sep s : string) : list string :=
  match find sep s with
  | Some i =>
      [ substring 0 i s;
        substring (i + String.length sep)
                  (String.length s - (i + String.length sep)) s ]
  | None => [s]
  end.

(** [pref_key], the nested function of [worker]:
<<
    def pref_key(line):
        low = line.lower()
        if ' is ' in low:
            return low.split(' is ', 1)[0].strip()
        return low
>> *)
Definition pref_key (line : string) : string :=
  let low := lower line in
  if contains " is " low
  then strip (hd EmptyString (split1 " is " low))
  else low.

(** The key as the specification words it: the text of the line before
    the first position at which [" is "] matches when case is ignored,
    lower-cased; the whole lower-cased line when there is no match. *)
Fixpoint find_ci (sep s : string) : option nat :=
  if String.eqb (lower (substring 0 (String.length sep) s)) sep then Some 0
  else match s with
       | EmptyString => None
       | String _ s' => S <$> find_ci sep s'
       end.

Definition spec_key (line : string) : string :=
  match find_ci " is " line with
  | Some i => lower (substring 0 i line)
  | None => lower line
  end.

End Text.

(* ===================================================================== *)
(** * The preference merge                                                *)
(* ===================================================================== *)

Module Prefs.
Import Text.

(** An item of [preferences.json] as [load_prefs_list] returns it:
    [{'line': str, 'ts': int}]. *)
Record entry := Entry { line : string; ts : Z }.

(** The variables of the two loops of [worker]: the ordered list [keys],
    the dict [mapping], and the number of clock readings made so far. *)
Record state := State {
  keys : list string;
  mapping : gmap string entry;
  ticks : nat
}.

(** [new_lines = [l.strip() for l in extracted.splitlines() if l.strip()]],
    from the pieces that [splitlines] returns. *)
Definition new_lines_of (raw : list string) : list string :=
  strip <$> filter (λ l, strip l ≠ EmptyString) raw.

(** [keys.remove(k)] under [try: ... except Exception: pass]: the first
    occurrence goes; an absent [k] leaves the list as it is. *)
Fixpoint remove_first (k : string) (l : list string) : list string :=
  match l with
  | [] => []
  | x :: l' => if decide (x = k) then l' else x :: remove_first k l'
  end.

(** [while len(final) > int(limit): final.pop(0)] *)
Fixpoint pop_oldest (limit : Z) (final : list entry) : list entry :=
  match final with
  | [] => []
  | _ :: rest =>
      if (limit <? Z.of_nat (length final))%Z then pop_oldest limit rest
      else final
  end.

(** [if isinstance(limit, int) and limit >= 0: ...] *)
Definition enforce_limit (limit : Z) (final : list entry) : list entry :=
  if (0 <=? limit)%Z then pop_oldest limit final else final.

(** The key under which the merge files an entry. *)
Definition entry_key (e : entry) : string := pref_key (line e).

Definition key_set (l : list entry) : gset string :=
  list_to_set (entry_key <$> l).

Section Merge.

(** [clock n] is what the [n]-th call of [int(time.time())] returns. *)
Variable clock : nat → Z.

Definition init : state := State [] ∅ 0.

(** The body of [for item in existing]:
<<
    ln = item.get('line','').strip()
    if not ln: continue
    k = pref_key(ln)
    if k in mapping: continue
    mapping[k] = {'line': ln, 'ts': int(item.get('ts') or int(time.time()))}
    keys.append(k)
>> *)
Definition load_item (st : state) (item : entry) : state :=
  let ln := strip (line item) in
  if decide (ln = EmptyString) then st
  else
    let k := pref_key ln in
    match mapping st !! k with
    | Some _ => st
    | None =>
        if decide (ts item = 0%Z)
        then State (keys st ++ [k])
                   (<[k := Entry ln (clock (ticks st))]> (mapping st))
                   (S (ticks st))
        else State (keys st ++ [k])
                   (<[k := Entry ln (ts item)]> (mapping st))
                   (ticks st)
    end.

(** The body of [for nl in new_lines]:
<<
    k = pref_key(nl)
    entry = {'line': nl, 'ts': int(time.time())}
    if k in mapping:
        try: keys.remove(k)
        except Exception: pass
    mapping[k] = entry
    keys.append(k)
>> *)
Definition apply_line (st : state) (nl : string) : state :=
  let k := pref_key nl in
  let e := Entry nl (clock (ticks st)) in
  let keys' := match mapping st !! k with
               | Some _ => remove_first k (keys st)
               | None => keys st
               end in
  State (keys' ++ [k]) (<[k := e]> (mapping st)) (S (ticks st)).

Definition run_loops (existing : list entry) (new_lines : list string)
  : state :=
  foldl apply_line (foldl load_item init existing) new_lines.

(** [final = [mapping[k] for k in keys]]; a missing key raises
    [KeyError], which the worker swallows without saving anything. *)
Definition rebuild (st : state) : option (list entry) :=
  mapM (λ k, mapping st !! k) (keys st).

(** [final] before the limit is enforced. *)
Definition merged (existing : list entry) (new_lines : list string)
  : option (list entry) :=
  rebuild (run_loops existing new_lines).

(** [final] as it is handed to [save_prefs_list]. *)
Definition merge_prefs (existing : list entry) (new_lines : list string)
    (limit : Z) : option (list entry) :=
  enforce_limit limit <$> merged existing new_lines.

(** ** The list a loop state stands for

    [represents st l]: [keys] lists the keys of [l] in order, no key
    occurs twice, and [mapping] holds exactly the entries of [l], each
    under its own key. *)
Definition represents (st : state) (l : list entry) : Prop :=
  keys st = entry_key <$> l
  ∧ NoDup (entry_key <$> l)
  ∧ (∀ e, e ∈ l → mapping st !! entry_key e = Some e)
  ∧ (∀ k, is_Some (mapping st !! k) → k ∈ entry_key <$> l).

(** A line as the first loop stores it: stripped and not empty. *)
Definition clean (e : entry) : Prop :=
  strip (line e) = line e ∧ line e ≠ EmptyString.

(** The list after one round of the first loop. *)
Definition load_view (st : state) (l : list entry) (item : entry)
  : list entry :=
  let ln := strip (line item) in
  if decide (ln = EmptyString) then l
  else if decide (pref_key ln ∈ entry_key <$> l) then l
  else l ++ [Entry ln (if decide (ts item = 0%Z) then clock (ticks st)
                       else ts item)].

(** The list after the first loop has run over [ex]. *)
Fixpoint loads_view (st : state) (l : list entry) (ex : list entry)
  : list entry :=
  match ex with
  | [] => l
  | item :: ex' =>
      loads_view (load_item st item) (load_view st l item) ex'
  end.

(** The list after the second loop has run over [news]. *)
Fixpoint applies_view (st : state) (l : list entry) (news : list string)
  : list entry :=
  match news with
  | [] => l
  | nl :: news' =>
      applies_view (apply_line st nl)
        (filter (λ e, entry_key e ≠ pref_key nl) l
         ++ [Entry nl (clock (ticks st))]) news'
  end.

Definition final_view (existing : list entry) (new_lines : list string)
  : list entry :=
  applies_view (foldl load_item init existing)
    (loads_view init [] existing) new_lines.

End Merge.

End Prefs.

(* ===================================================================== *)
(** * settings.json                                                       *)
(* ===================================================================== *)

Module Store.

(** The JSON scalars a settings field can hold, as Python values. *)
Inductive pyval :=
| PNone
| PBool (b : bool)
| PInt (z : Z)
| PStr (s : string).

Global Instance pyval_eq_dec : EqDecision pyval.
Proof. solve_decision. Defined.

(** Python truth value. *)
Definition truthy (v : pyval) : bool :=
  match v with
  | PNone => false
  | PBool b => b
  | PInt z => negb (z =? 0)%Z
  | PStr s => negb (String.eqb s EmptyString)
  end.

(** [d.get(k)] *)
Definition get (d : gmap string pyval) (k : string) : pyval :=
  default PNone (d !! k).

(** What [SETTINGS_PATH] holds. *)
Inductive settings_file :=
| NoFile                                (* os.path.exists is false *)
| Unreadable                            (* open or json.load raises *)
| JsonObject (d : gmap string pyval)    (* a JSON object *)
| JsonOther (truth : bool).             (* any other JSON value *)

(** The arguments of [save_settings]. *)
Record save_args := SaveArgs {
  use_local : bool;
  api_key : option string;
  endpoint : option string;
  last_deleted : option string;
  ai_history_lines : option Z;
  pref_memory_lines : option Z;
  ai_model : option string
}.

(** [data] after the loading block of [save_settings]:
    [data = json.load(sf) or {}], and [{}] when there is no file or
    reading fails.  [None] stands for a [data] that is not a dict, on
    which the first item assignment raises [TypeError]. *)
Definition load_data (f : settings_file) : option (gmap string pyval) :=
  match f with
  | NoFile => Some ∅
  | Unreadable => Some ∅
  | JsonObject d => Some d
  | JsonOther true => None
  | JsonOther false => Some ∅
  end.

Definition set_use_local (a : save_args) (data : gmap string pyval) :=
  <["use_local_ai" := PBool (use_local a)]> data.

Definition set_api_key (a : save_args) (data : gmap string pyval) :=
  match api_key a with
  | None => data
  | Some k => if decide (k = EmptyString) then delete "openai_api_key" data
              else <["openai_api_key" := PStr k]> data
  end.

Definition set_endpoint (a : save_args) (data : gmap string pyval) :=
  match endpoint a with
  | None => data
  | Some e => if decide (e = EmptyString) then delete "server_endpoint" data
              else <["server_endpoint" := PStr e]> data
  end.

Definition set_last_deleted (now : Z) (a : save_args)
    (data : gmap string pyval) :=
  match last_deleted a with
  | None => data
  | Some l =>
      if decide (l = EmptyString)
      then delete "last_credential_deleted_ts"
             (delete "last_credential_deleted" data)
      else <["last_credential_deleted_ts" := PInt now]>
             (<["last_credential_deleted" := PStr l]> data)
  end.

Definition set_limits (a : save_args) (data : gmap string pyval) :=
  let data := match ai_history_lines a with
              | None => data
              | Some n => <["ai_history_lines" := PInt n]> data
              end in
  match pref_memory_lines a with
  | None => data
  | Some n => <["pref_memory_lines" := PInt n]> data
  end.

Definition set_model (a : save_args) (data : gmap string pyval) :=
  match ai_model a with
  | None => data
  | Some m => <["ai_model" := PStr m]> data
  end.

(** The assignments of [save_settings], in source order. *)
Definition update (now : Z) (a : save_args) (data : gmap string pyval)
  : gmap string pyval :=
  set_model a (set_limits a (set_last_deleted now a
    (set_endpoint a (set_api_key a (set_use_local a data))))).

(** [save_settings]: the file afterwards.  [now] is [int(time.time())].
    Every exception is swallowed, so a [data] that is not a dict leaves
    the file as it was. *)
Definition save_settings (now : Z) (a : save_args) (f : settings_file)
  : settings_file :=
  match load_data f with
  | Some data => JsonObject (update now a data)
  | None => f
  end.

(** The fields stored in the file. *)
Definition stored (f : settings_file) : gmap string pyval :=
  match f with
  | JsonObject d => d
  | _ => ∅
  end.

(** The keys that a call may write: [use_local_ai] always, the others
    when their argument is not [None]. *)
Definition touched (a : save_args) : list string :=
  ["use_local_ai"]
  ++ (if api_key a is Some _ then ["openai_api_key"] else [])
  ++ (if endpoint a is Some _ then ["server_endpoint"] else [])
  ++ (if last_deleted a is Some _
      then ["last_credential_deleted"; "last_credential_deleted_ts"] else [])
  ++ (if ai_history_lines a is Some _ then ["ai_history_lines"] else [])
  ++ (if pref_memory_lines a is Some _ then ["pref_memory_lines"] else [])
  ++ (if ai_model a is Some _ then ["ai_model"] else []).

(** The dict [load_settings] returns when it cannot read an object. *)
Definition default_settings : gmap string pyval :=
  list_to_map
    [ ("use_local_ai", PBool true); ("openai_api_key", PNone);
      ("server_endpoint", PNone); ("last_credential_deleted", PNone);
      ("ai_history_lines", PNone); ("pref_memory_lines", PNone);
      ("ai_model", PStr "gpt-4o-mini") ].

(** [load_settings] *)
Definition load_settings (f : settings_file) : gmap string pyval :=
  match f with
  | JsonObject loaded =>
      list_to_map
        [ ("use_local_ai",
           PBool (truthy (default (PBool true) (loaded !! "use_local_ai"))));
          ("openai_api_key", get loaded "openai_api_key");
          ("server_endpoint", get loaded "server_endpoint");
          ("last_credential_deleted", get loaded "last_credential_deleted");
          ("last_credential_deleted_ts",
           get loaded "last_credential_deleted_ts");
          ("ai_history_lines", get loaded "ai_history_lines");
          ("pref_memory_lines", get loaded "pref_memory_lines");
          ("ai_model",
           let m := get loaded "ai_model" in
           if truthy m then m else PStr "gpt-4o-mini") ]
  | _ => default_settings
  end.

(** [get_saved_api_key] and [get_saved_endpoint]: the stored value when
    it is truthy, else [None]. *)
Definition get_saved_api_key (f : settings_file) : pyval :=
  let key := get (load_settings f) "openai_api_key" in
  if truthy key then key else PNone.

Definition get_saved_endpoint (f : settings_file) : pyval :=
  let ep := get (load_settings f) "server_endpoint" in
  if truthy ep then ep else PNone.

End Store.

(* ===================================================================== *)
(** * The credential prompt at startup                                    *)
(* ===================================================================== *)

Module Credentials.
Import Store.

Inductive prompt := PromptApiKey | PromptEndpoint.

(** Which of [prompt_for_api_key()] and [prompt_for_endpoint()] the
    startup block of [build_main_window] calls.  Both functions catch
    every exception themselves, so the [except] arm that would fall back
    to the endpoint prompt is never taken. *)
Definition select_prompt (saved_key saved_ep last : pyval)
    (use_local : bool) : option prompt :=
  if negb (truthy saved_key) && negb (truthy saved_ep) then
    if decide (last = PStr "api_key") then Some PromptApiKey
    else if decide (last = PStr "server_endpoint") then Some PromptEndpoint
    else Some PromptApiKey
  else if use_local then
    if negb (truthy saved_key) then Some PromptApiKey else None
  else
    if negb (truthy saved_ep) then Some PromptEndpoint else None.

(** The same, fed from the settings file as the startup code feeds it. *)
Definition startup_prompt (f : settings_file) : option prompt :=
  select_prompt (get_saved_api_key f) (get_saved_endpoint f)
    (get (load_settings f) "last_credential_deleted")
    (truthy (get (load_settings f) "use_local_ai")).

End Credentials.

(* ===================================================================== *)
(** * Personality presets                                                 *)
(* ===================================================================== *)

Module Presets.

(** The eight [tk.IntVar]s behind the personality sliders. *)
Record sliders := Sliders {
  friendliness : Z;
  professionalism : Z;
  profanity : Z;
  age : Z;
  gender : Z;
  humor : Z;
  sarcasm : Z;
  introversion : Z
}.

Inductive slider_var :=
| friendliness_var | professionalism_var | profanity_var | age_var
| gender_var | humor_var | sarcasm_var | introversion_var.

(** [x.set(v)] *)
Definition set_var (x : slider_var) (v : Z) (s : sliders) : sliders :=
  match x with
  | friendliness_var =>
      Sliders v (professionalism s) (profanity s) (age s) (gender s)
              (humor s) (sarcasm s) (introversion s)
  | professionalism_var =>
      Sliders (friendliness s) v (profanity s) (age s) (gender s)
              (humor s) (sarcasm s) (introversion s)
  | profanity_var =>
      Sliders (friendliness s) (professionalism s) v (age s) (gender s)
              (humor s) (sarcasm s) (introversion s)
  | age_var =>
      Sliders (friendliness s) (professionalism s) (profanity s) v (gender s)
              (humor s) (sarcasm s) (introversion s)
  | gender_var =>
      Sliders (friendliness s) (professionalism s) (profanity s) (age s) v
              (humor s) (sarcasm s) (introversion s)
  | humor_var =>
      Sliders (friendliness s) (professionalism s) (profanity s) (age s)
              (gender s) v (sarcasm s) (introversion s)
  | sarcasm_var =>
      Sliders (friendliness s) (professionalism s) (profanity s) (age s)
              (gender s) (humor s) v (introversion s)
  | introversion_var =>
      Sliders (friendliness s) (professionalism s) (profanity s) (age s)
              (gender s) (humor s) (sarcasm s) v
  end.

(** The values the variables are created with in [build_main_window]. *)
Definition initial : sliders := Sliders 2 1 0 30 1 0 0 1.

(** [DEFAULT_PRESETS]; the [presets] dict literal of
    [open_personality_window] has the same items. *)
Definition DEFAULT_PRESETS : gmap string (list Z) :=
  list_to_map
    [ ("Default AI",           [2; 1; 0; 30; 1; 0; 0; 1]%Z);
      ("Helpful Professional", [2; 2; 0; 35; 1; 0; 0; 1]%Z);
      ("Casual Friendly",      [3; 0; 0; 25; 1; 1; 0; 1]%Z);
      ("Playful Sarcastic",    [2; 0; 1; 18; 1; 2; 2; 1]%Z);
      ("Child-Friendly",       [3; 1; 0; 12; 1; 0; 0; 2]%Z);
      ("Stoic Professional",   [1; 2; 0; 40; 1; 0; 0; 0]%Z);
      ("Sailor-Mouth",         [0; 0; 2; 30; 1; 1; 2; 0]%Z) ].

(** A run of statements [x.set(vals[i])].  An index out of range raises
    [IndexError]: the statements after it are skipped, the ones before
    it have taken effect; the flag tells whether the run completed. *)
Fixpoint assign (stmts : list (slider_var * nat)) (vals : list Z)
    (s : sliders) : sliders * bool :=
  match stmts with
  | [] => (s, true)
  | (x, i) :: rest =>
      match vals !! i with
      | Some v => assign rest vals (set_var x v s)
      | None => (s, false)
      end
  end.

(** Lines 223-230, and again lines 1729-1736 in [apply_preset]. *)
Definition preset_stmts : list (slider_var * nat) :=
  [ (friendliness_var, 0); (professionalism_var, 1); (profanity_var, 2);
    (age_var, 3); (gender_var, 4); (humor_var, 5); (sarcasm_var, 6);
    (introversion_var, 7) ].

(** Lines 246-253, for a preset read from [personalities/]. *)
Definition file_stmts : list (slider_var * nat) :=
  [ (friendliness_var, 0); (professionalism_var, 1); (profanity_var, 2);
    (age_var, 3); (friendliness_var, 4); (humor_var, 5); (sarcasm_var, 6);
    (introversion_var, 7) ].

(** Lines 260-267, the fall-back to ['Default AI']. *)
Definition fallback_stmts : list (slider_var * nat) :=
  [ (friendliness_var, 0); (professionalism_var, 1);
    (professionalism_var, 2); (age_var, 3); (gender_var, 4); (humor_var, 5);
    (sarcasm_var, 6); (introversion_var, 7) ].

(** What [json.load] gives for a file of [personalities/]: a list of
    integers, an object (with its ['values'] list when it has one), or
    something else. *)
Inductive preset_json :=
| PresetList (vals : list Z)
| PresetObject (values : option (list Z))
| PresetOther.

(** [vals] after
<<
    if isinstance(loaded, list): vals = loaded
    elif isinstance(loaded, dict) and 'values' in loaded:
        vals = loaded.get('values')
>> *)
Definition loaded_vals (loaded : preset_json) : option (list Z) :=
  match loaded with
  | PresetList vals => Some vals
  | PresetObject values => values
  | PresetOther => None
  end.

(** [if vals and len(vals) >= 8: ... [int(x) for x in vals[:8]]] *)
Definition first_eight (loaded : preset_json) : option (list Z) :=
  match loaded_vals loaded with
  | Some vals =>
      if decide (8 ≤ length vals)%nat then Some (take 8 vals) else None
  | None => None
  end.

(** The startup block of [build_main_window] that applies the preset
    named by [last_selected] of [presets.json]; [personalities] maps a
    name to the content of [personalities/<name>.json]. *)
Definition startup_apply (last_selected : option string)
    (personalities : gmap string preset_json) (s : sliders) : sliders :=
  match last_selected with
  | None => s
  | Some name =>
      if decide (name = EmptyString) then s
      else
        match DEFAULT_PRESETS !! name with
        | Some vals => fst (assign preset_stmts vals s)
        | None =>
            let '(s1, applied) :=
              match personalities !! name with
              | Some loaded =>
                  match first_eight loaded with
                  | Some vals => assign file_stmts vals s
                  | None => (s, false)
                  end
              | None => (s, false)
              end in
            if applied then s1
            else match DEFAULT_PRESETS !! "Default AI" with
                 | Some vals => fst (assign fallback_stmts vals s1)
                 | None => s1
                 end
        end
  end.

(** The [presets] dict of [open_personality_window]: the built-in
    presets, then one item per usable file of [personalities/], a file
    replacing a built-in preset of the same name. *)
Definition window_presets (personalities : gmap string preset_json)
  : gmap string (list Z) :=
  omap first_eight personalities ∪ DEFAULT_PRESETS.

(** [apply_preset(name)] of the Personality window. *)
Definition apply_preset (presets : gmap string (list Z)) (name : string)
    (s : sliders) : sliders :=
  match presets !! name with
  | None => s
  | Some [] => s
  | Some vals => fst (assign preset_stmts vals s)
  end.

(** The sliders set to the first eight values of a list, in the order
    friendliness, professionalism, profanity, age, gender, humour,
    sarcasm, extroversion. *)
Definition sliders_of (vals : list Z) : option sliders :=
  match vals with
  | f :: p :: x :: a :: g :: h :: c :: i :: _ => Some (Sliders f p x a g h c i)
  | _ => None
  end.

End Presets.

(* ===================================================================== *)
(** * Sample data                                                         *)
(* ===================================================================== *)

Module Sample.
Import Prefs Store Presets.

(** A clock that advances by one second per reading. *)
Definition clock (n : nat) : Z := (1700000000 + Z.of_nat n)%Z.

(** A stored list with a repeated key and a time stamp of 0. *)
Definition existing : list entry :=
  [ Entry "Favorite color is red" 100;
    Entry "Likes tea" 0;
    Entry "favorite color is green" 101;
    Entry "Name is Sam" 102 ].

Definition new_lines : list string :=
  [ "Favorite Color is Blue"; "Pet is a cat"; "favorite color is teal" ].

(** A settings file with both credentials stored. *)
Definition settings : settings_file :=
  JsonObject (list_to_map
    [ ("use_local_ai", PBool true);
      ("openai_api_key", PStr "sk-test");
      ("server_endpoint", PStr "http://localhost:8000/chat");
      ("pref_memory_lines", PInt 20);
      ("theme", PStr "dark") ]).

(** A settings file with the API key only, and one with the endpoint
    only. *)
Definition only_key : settings_file :=
  JsonObject (list_to_map
    [ ("use_local_ai", PBool true); ("openai_api_key", PStr "sk-test") ]).

Definition only_endpoint : settings_file :=
  JsonObject (list_to_map
    [ ("use_local_ai", PBool false);
      ("server_endpoint", PStr "http://localhost:8000/chat") ]).

(** Deleting the API key from the settings dialog:
    [save_settings(use_local, api_key='', last_deleted='api_key')]. *)
Definition delete_key_args : save_args :=
  SaveArgs false (Some EmptyString) None (Some "api_key") None None None.

(** [personalities/mine.json] holding a bare list, and
    [personalities/boxed.json] holding an object with ['values']. *)
Definition mine : list Z := [3; 2; 1; 40; 2; 1; 1; 0]%Z.

Definition personalities : gmap string preset_json :=
  list_to_map
    [ ("mine", PresetList mine); ("boxed", PresetObject (Some mine)) ].

End Sample.

(* ===================================================================== *)
(** * The settings dialogs and the limits                                 *)
(* ===================================================================== *)

Module Dialogs.
Import Text Store Credentials.

(** [get_saved_ai_model] *)
Definition get_saved_ai_model (f : settings_file) : pyval :=
  let model := get (load_settings f) "ai_model" in
  if truthy model then model else PStr "gpt-4o-mini".

(** [select_ai_model.on_save]: [save_settings(True, ai_model=selected)] *)
Definition select_ai_model_save (now : Z) (selected : string)
    (f : settings_file) : settings_file :=
  save_settings now (SaveArgs true None None None None None (Some selected)) f.

(** What the dialogs work on: [settings.json] and the Tk variable
    [use_local_var]. *)
Record app := App { settings : settings_file; use_local_var : bool }.

(** What the user does in a credential prompt.  The prompt holds a text
    field with the button "Save and continue", and a button that
    switches to the other mode.  It cannot be closed
    ([WM_DELETE_WINDOW] and Escape are disabled), and
    [root.wait_window(dlg)] returns only once one of the two buttons
    has destroyed the prompt. *)
Inductive action :=
| Enter (text : string)     (* fill in [text], press "Save and continue" *)
| Switch.                   (* "Use Server Instead" / "Use Local Instead" *)

(** [prompt_for_api_key] and [prompt_for_endpoint], run on the actions
    that the user takes while prompts are open.  A call returns at once
    when its credential is saved.  Otherwise the prompt opens:
    [on_save] does nothing on a blank text and stores any other text,
    stripped, together with the mode of the prompt;
    [switch_to_server] and [switch_to_local] store the other mode, set
    [use_local_var] and call the other prompt when its credential is
    missing.  The result [None] says that the actions are used up with
    a prompt still open, so that the call has not returned.  No prompt
    passes [last_deleted], so none reads the clock: [now] is only
    handed on to [save_settings]. *)
Fixpoint prompt_for_api_key (now : Z) (script : list action) (st : app)
    {struct script} : option app :=
  if truthy (get_saved_api_key (settings st)) then Some st
  else
    match script with
    | [] => None
    | Enter text :: rest =>
        let val := strip text in
        if decide (val = EmptyString) then prompt_for_api_key now rest st
        else Some (App (save_settings now
                          (SaveArgs true (Some val) None None None None None)
                          (settings st))
                       (use_local_var st))
    | Switch :: rest =>
        let f' := save_settings now
                    (SaveArgs false None None None None None None)
                    (settings st) in
        if negb (truthy (get_saved_endpoint f'))
        then prompt_for_endpoint now rest (App f' false)
        else Some (App f' false)
    end
with prompt_for_endpoint (now : Z) (script : list action) (st : app)
    {struct script} : option app :=
  if truthy (get_saved_endpoint (settings st)) then Some st
  else
    match script with
    | [] => None
    | Enter text :: rest =>
        let val := strip text in
        if decide (val = EmptyString) then prompt_for_endpoint now rest st
        else Some (App (save_settings now
                          (SaveArgs false None (Some val) None None None None)
                          (settings st))
                       (use_local_var st))
    | Switch :: rest =>
        let f' := save_settings now
                    (SaveArgs true None None None None None None)
                    (settings st) in
        if negb (truthy (get_saved_api_key f'))
        then prompt_for_api_key now rest (App f' true)
        else Some (App f' true)
    end.

(** The removal branch of [manage_api_key.save_new] up to its message
    box (lines 1987-1999): the stored key is removed and the removal
    recorded, with the mode of the running program as it is; then
    [use_local_var] is set to false. *)
Definition remove_api_key (now : Z) (st : app) : app :=
  App (save_settings now
         (SaveArgs (use_local_var st) (Some EmptyString) None
                   (Some "api_key") None None None) (settings st))
      false.

(** [manage_api_key.save_new(key)].  A key that is [None] or blank is
    removed and, when no credential is left, [prompt_for_api_key()] is
    called; any other key is stored stripped.  [script] holds what the
    user does in the prompts, and [None] says that the handler has not
    returned. *)
Definition save_new_api_key (now : Z) (script : list action)
    (key : option string) (st : app) : option app :=
  let remove :=
    let st' := remove_api_key now st in
    if negb (truthy (get_saved_api_key (settings st')))
       && negb (truthy (get_saved_endpoint (settings st')))
    then prompt_for_api_key now script st' else Some st' in
  match key with
  | None => remove
  | Some k =>
      if decide (strip k = EmptyString) then remove
      else Some (App (save_settings now
                        (SaveArgs (use_local_var st) (Some (strip k)) None
                                  None None None None) (settings st))
                     (use_local_var st))
  end.

(** The removal branch of [manage_endpoint.save_new] up to its message
    box (lines 2073-2085), the mirror image: [use_local_var] is set to
    true. *)
Definition remove_endpoint (now : Z) (st : app) : app :=
  App (save_settings now
         (SaveArgs (use_local_var st) None (Some EmptyString)
                   (Some "server_endpoint") None None None) (settings st))
      true.

(** [manage_endpoint.save_new(ep)]; the removal may call
    [prompt_for_endpoint()]. *)
Definition save_new_endpoint (now : Z) (script : list action)
    (ep : option string) (st : app) : option app :=
  let remove :=
    let st' := remove_endpoint now st in
    if negb (truthy (get_saved_api_key (settings st')))
       && negb (truthy (get_saved_endpoint (settings st')))
    then prompt_for_endpoint now script st' else Some st' in
  match ep with
  | None => remove
  | Some e =>
      if decide (strip e = EmptyString) then remove
      else Some (App (save_settings now
                        (SaveArgs (use_local_var st) None (Some (strip e))
                                  None None None None) (settings st))
                     (use_local_var st))
  end.

(** [toggle_use_local], run after the menu check button has flipped
    [use_local_var]: the flag is saved, then the credential of the new
    mode is asked for when it is missing.  [None] says that the handler
    has not returned. *)
Definition toggle_use_local (now : Z) (script : list action) (st : app)
  : option app :=
  let val := use_local_var st in
  let f' := save_settings now (SaveArgs val None None None None None None)
              (settings st) in
  if val then
    if negb (truthy (get_saved_api_key f'))
    then prompt_for_api_key now script (App f' val) else Some (App f' val)
  else
    if negb (truthy (get_saved_endpoint f'))
    then prompt_for_endpoint now script (App f' val) else Some (App f' val).

(** A script on which an open prompt is left: the user enters a text
    that is not blank. *)
Definition enters_text (script : list action) : Prop :=
  ∃ text, Enter text ∈ script ∧ strip text ≠ EmptyString.

(** The credentials that are saved in [st] are saved unchanged in
    [after]. *)
Definition keeps_saved (st after : app) : Prop :=
  (truthy (get_saved_api_key (settings st)) = true →
   get_saved_api_key (settings after) = get_saved_api_key (settings st))
  ∧ (truthy (get_saved_endpoint (settings st)) = true →
     get_saved_endpoint (settings after) = get_saved_endpoint (settings st)).

Definition HISTORY_DEFAULT_LINES : Z := 20.
Definition PREFS_DEFAULT_LINES : Z := 20.

Section Limits.

(** [int(s)] for a [str] [s], the built-in; [None] stands for
    [ValueError]. *)
Variable int_of_str : string → option Z.

(** [int(v)]; [None] stands for an exception. *)
Definition py_int (v : pyval) : option Z :=
  match v with
  | PNone => None
  | PBool b => Some (if b then 1 else 0)%Z
  | PInt z => Some z
  | PStr s => int_of_str s
  end.

(** The limit that [build_main_window] computes from one field of the
    loaded settings:
<<
    try: val = int(v) if v is not None else None
    except Exception: val = None
    if val is None: LIMIT = default
    else: LIMIT = max(0, min(50, int(val)))
>> *)
Definition startup_limit (default : Z) (v : pyval) : Z :=
  match py_int v with
  | None => default
  | Some val => Z.max 0 (Z.min 50 val)
  end.

Definition startup_history_limit (f : settings_file) : Z :=
  startup_limit HISTORY_DEFAULT_LINES
    (get (load_settings f) "ai_history_lines").

Definition startup_prefs_limit (f : settings_file) : Z :=
  startup_limit PREFS_DEFAULT_LINES
    (get (load_settings f) "pref_memory_lines").

End Limits.

(** [limit_prefs.on_save] with the slider at [val]: the value is saved
    and becomes [PREFS_LIMIT]. *)
Definition limit_prefs_save (now : Z) (val : Z) (st : app)
  : settings_file * Z :=
  (save_settings now
     (SaveArgs (use_local_var st) None None None None (Some val) None)
     (settings st), val).

(** [limit_chat.on_save]: the same for [HISTORY_LIMIT]. *)
Definition limit_chat_save (now : Z) (val : Z) (st : app)
  : settings_file * Z :=
  (save_settings now
     (SaveArgs (use_local_var st) None None None (Some val) None None)
     (settings st), val).

End Dialogs.

(* ===================================================================== *)
(** * The conversation, the personality instructions and the payload      *)
(* ===================================================================== *)

Module Chat.
Import Text Presets.

(** An item of [history] and [full_history]: [(role, message, ts)]. *)
Record turn := Turn { who : string; said : string; stamp : string }.

(** An item of the payload: [{"role": ..., "content": ...}]. *)
Record message := Message { role : string; content : string }.

(** The conversation state: the trimmed [history] that is sent as
    context, the untrimmed [full_history] that is displayed and saved,
    and the global [HISTORY_LIMIT] ([None] when it is not an [int]). *)
Record chat := ChatState {
  history : list turn;
  full_history : list turn;
  HISTORY_LIMIT : option Z
}.

(** [while len(history) > limit: history.pop(0)].  The flag tells that
    [pop] was called on the empty list and raised [IndexError]; the
    list is returned as the loop left it. *)
Fixpoint trim_loop (limit : Z) (history : list turn) : list turn * bool :=
  match history with
  | [] => ([], (limit <? 0)%Z)
  | _ :: rest =>
      if (limit <? Z.of_nat (length history))%Z then trim_loop limit rest
      else (history, false)
  end.

(** [_trim_history]: the loop with [HISTORY_LIMIT] when that is an
    [int], else with 10; on an exception, the loop with 10. *)
Definition _trim_history (limit : option Z) (history : list turn)
  : list turn :=
  let '(h, raised) := trim_loop (default 10%Z limit) history in
  if raised then (trim_loop 10 h).1 else h.

(** [sep.join(parts)] *)
Fixpoint join (sep : string) (parts : list string) : string :=
  match parts with
  | [] => EmptyString
  | [p] => p
  | p :: rest => p +:+ sep +:+ join sep rest
  end.

(** [parts] at the end of [build_personality_instructions].  The block
    for extroversion sits inside the [else] branch of the sarcasm
    block, as it does in the source. *)
Definition personality_parts (s : sliders) : list string :=
  let f := friendliness s in
  let p := professionalism s in
  let r := profanity s in
  let a := age s in
  let g := gender s in
  let h := humor s in
  let c := sarcasm s in
  let i := introversion s in
  [ if (f =? 3)%Z then "Be very friendly, kind and warm."
    else if (f =? 2)%Z then "Be friendly and kind."
    else if (f =? 1)%Z then "Be slightly reserved."
    else "Be very reserved and blunt." ]
  ++ [ if (p =? 2)%Z then "Maintain a professional tone."
       else if (p =? 1)%Z then "Be somewhat professional."
       else "Use casual wording." ]
  ++ [ if (a <=? 15)%Z
       then "Do not use profanity under any circumstances; avoid coarse language due to youthful voice."
       else if (r =? 2)%Z
       then "Profanity allowed: high (use strong coarse language as much as possible if it makes sense)."
       else if (r =? 1)%Z
       then "Profanity allowed: moderate (may use mild swear words)."
       else "No profanity; use clean language." ]
  ++ [ "Adopt the voice of someone aged " +:+ pretty a +:+ "." ]
  ++ [ if (g =? 2)%Z then "Use a feminine voice/wording."
       else if (g =? 0)%Z then "Use a masculine voice/wording."
       else "Use neutral wording." ]
  ++ [ if (h =? 2)%Z
       then "Try and be comedic as much as possible where appropriate."
       else if (h =? 1)%Z then "Use some humour occasionally."
       else "Avoid humour; be straightforward." ]
  ++ (if (c =? 2)%Z
      then [ "Sarcasm permitted: use sharp, ironic remarks as much as possible if fitting." ]
      else if (c =? 1)%Z
      then [ "Sarcasm permitted: mild irony allowed." ]
      else
        [ "Do not use sarcasm; be literal and sincere.";
          if (i =? 2)%Z
          then "Favor social/outgoing hobbies and confident wording. Be excitable and enthusiastic where appropriate, expressing with exclamation marks more often than not."
          else if (i =? 1)%Z
          then "No particular bias toward extroversion or introversion."
          else "Favor solitary/quiet hobbies and mention mild nervousness or reserve in social situations when relevant. Do not be excitable, for instance lay off of exclamation marks unless absolutely necessary." ]).

(** [build_personality_instructions]: [' '.join(parts)]. *)
Definition build_personality_instructions (s : sliders) : string :=
  join " " (personality_parts s).

(** The first system message of the payload. *)
Definition intro_message (preset_label : string) : message :=
  Message "system"
    ("Your name is " +:+ preset_label +:+ " and you are a user's chat partner. As such, you should keep responses concise, try to adapt them based on the context of the conversation, and for the most part the user's preferences or tone depending on your personality defined below.").

(** [{"role": "user" if role == "You" else "assistant", "content": msg}] *)
Definition turn_message (t : turn) : message :=
  Message (if decide (who t = "You") then "user" else "assistant") (said t).

(** [any(m.get('role') == 'user' and m.get('content') == message ...)] *)
Definition has_user_message (text : string) (payload : list message) : bool :=
  existsb (λ m, bool_decide (role m = "user")
                && bool_decide (content m = text)) payload.

(** [messages_for_gpt] as [send_message] hands it to the worker, built
    from the history after trimming. *)
Definition build_payload (preset_label : string) (s : sliders)
    (text : string) (history : list turn) : list message :=
  let personality := build_personality_instructions s in
  let payload :=
    [intro_message preset_label]
    ++ (if decide (personality = EmptyString) then []
        else [Message "system" personality])
    ++ (turn_message <$> history) in
  if has_user_message text payload then payload
  else payload ++ [Message "user" text].

(** [send_message] up to the start of the worker: nothing happens for
    a blank entry; otherwise the message is appended to both
    histories, [history] is trimmed, and the payload is built.  [ts]
    is what [time.strftime] returns. *)
Definition send_message (preset_label : string) (s : sliders)
    (text ts : string) (st : chat) : option (chat * list message) :=
  if decide (strip text = EmptyString) then None
  else
    let h := _trim_history (HISTORY_LIMIT st)
               (history st ++ [Turn "You" text ts]) in
    Some (ChatState h (full_history st ++ [Turn "You" text ts])
                    (HISTORY_LIMIT st),
          build_payload preset_label s text h).

(** Recording the reply (in [worker]) or the time-out text (in
    [timeout_callback]): the turn is appended to both histories and
    [history] is trimmed. *)
Definition record_reply (preset_label reply ts : string) (st : chat)
  : chat :=
  ChatState
    (_trim_history (HISTORY_LIMIT st)
       (history st ++ [Turn preset_label reply ts]))
    (full_history st ++ [Turn preset_label reply ts])
    (HISTORY_LIMIT st).

(** Recording an error text (the [except] branch of [worker]): as
    above, with [_trim_history()] called twice. *)
Definition record_error (preset_label err_text ts : string) (st : chat)
  : chat :=
  let st1 := record_reply preset_label err_text ts st in
  ChatState (_trim_history (HISTORY_LIMIT st1) (history st1))
            (full_history st1) (HISTORY_LIMIT st1).

(** [new_conversation], once confirmed. *)
Definition new_conversation (st : chat) : chat :=
  ChatState [] [] (HISTORY_LIMIT st).

(** [limit_chat.on_save]: [globals()['HISTORY_LIMIT'] = int(val)]. *)
Definition set_history_limit (val : Z) (st : chat) : chat :=
  ChatState (history st) (full_history st) (Some val).

(** The position at which the worker inserts the preferences: the
    index of the first message whose role is not ['system'], the
    length of the payload when there is none. *)
Fixpoint insert_idx (payload : list message) : nat :=
  match payload with
  | [] => 0
  | m :: rest =>
      if decide (role m = "system") then S (insert_idx rest) else 0
  end.

(** The worker's use of [preferences.json]: [prefs_file] is the text of
    the file ([None] when it does not exist); when the stripped text is
    not empty it is inserted as a system message at [insert_idx]. *)
Definition insert_prefs (prefs_file : option string)
    (payload : list message) : list message :=
  match prefs_file with
  | None => payload
  | Some raw =>
      let prefs_text := strip raw in
      if decide (prefs_text = EmptyString) then payload
      else take (insert_idx payload) payload
           ++ [Message "system" prefs_text]
           ++ drop (insert_idx payload) payload
  end.

(** [save_conversation]: every item of [full_history] becomes the list
    of its three fields. *)
Definition save_conversation (full : list turn) : list (list string) :=
  (λ t, [who t; said t; stamp t]) <$> full.

(** One item of a conversation file in [load_conversation_file]: an
    item with fewer than two fields is skipped, a missing third field
    is replaced by the current time. *)
Definition load_turn (now : string) (item : list string) : option turn :=
  match item with
  | r :: m :: rest =>
      Some (Turn r m (match rest with ts :: _ => ts | [] => now end))
  | _ => None
  end.

(** [load_conversation_file] on a file holding a list of lists of
    strings: both histories are replaced by the loaded turns. *)
Definition load_conversation_file (now : string) (data : list (list string))
    (st : chat) : chat :=
  let turns := omap (load_turn now) data in
  ChatState turns turns (HISTORY_LIMIT st).

(** What can happen to the conversation, each event running to its end
    before the next one starts. *)
Inductive event :=
| Send (preset_label : string) (s : sliders) (text ts : string)
| Reply (preset_label reply ts : string)
| Fail (preset_label err_text ts : string)
| NewConversation
| LoadConversation (now : string) (data : list (list string))
| SetLimit (val : Z).

Definition step (st : chat) (e : event) : chat :=
  match e with
  | Send l s text ts =>
      match send_message l s text ts st with
      | Some (st', _) => st'
      | None => st
      end
  | Reply l reply ts => record_reply l reply ts st
  | Fail l err_text ts => record_error l err_text ts st
  | NewConversation => new_conversation st
  | LoadConversation now data => load_conversation_file now data st
  | SetLimit val => set_history_limit val st
  end.

(** The state after [build_main_window]: both histories empty, the
    limit as computed at startup. *)
Definition start (limit : Z) : chat := ChatState [] [] (Some limit).

End Chat.

(* ===================================================================== *)
(** * Preset names                                                        *)
(* ===================================================================== *)

Module PresetNames.
Import Presets.

(** The items of [DEFAULT_PRESETS] in the order of the dict literal,
    which is the order in which [.items()] yields them. *)
Definition default_items : list (string * list Z) :=
  [ ("Default AI",           [2; 1; 0; 30; 1; 0; 0; 1]%Z);
    ("Helpful Professional", [2; 2; 0; 35; 1; 0; 0; 1]%Z);
    ("Casual Friendly",      [3; 0; 0; 25; 1; 1; 0; 1]%Z);
    ("Playful Sarcastic",    [2; 0; 1; 18; 1; 2; 2; 1]%Z);
    ("Child-Friendly",       [3; 1; 0; 12; 1; 0; 0; 2]%Z);
    ("Stoic Professional",   [1; 2; 0; 40; 1; 0; 0; 0]%Z);
    ("Sailor-Mouth",         [0; 0; 2; 30; 1; 1; 2; 0]%Z) ].

(** [current_values_tuple()], and [tpl] of
    [determine_active_preset_name]. *)
Definition current_values (s : sliders) : list Z :=
  [ friendliness s; professionalism s; profanity s; age s; gender s;
    humor s; sarcasm s; introversion s ].

(** [determine_active_preset_name].  [listing] holds, in the order of
    [os.listdir], the [.json] files of [personalities/], each under its
    name without the extension; a file that cannot be read counts as
    [PresetOther]. *)
Definition determine_active_preset_name
    (listing : list (string * preset_json)) (s : sliders) : string :=
  let tpl := current_values s in
  match list_find (λ item, item.2 = tpl) default_items with
  | Some (_, (name, _)) => name
  | None =>
      match list_find (λ item, first_eight item.2 = Some tpl) listing with
      | Some (_, (name, _)) => name
      | None => "Custom"
      end
  end.

(** [presets[name] = vals] on a dict kept as the list of its items: an
    existing key keeps its place, a new key goes last. *)
Fixpoint dict_set (name : string) (vals : list Z)
    (items : list (string * list Z)) : list (string * list Z) :=
  match items with
  | [] => [(name, vals)]
  | (k, v) :: rest =>
      if decide (k = name) then (name, vals) :: rest
      else (k, v) :: dict_set name vals rest
  end.

(** The items of [presets] in [open_personality_window], after the
    files of [personalities/] have been read. *)
Definition window_items (listing : list (string * preset_json))
  : list (string * list Z) :=
  foldl (λ items file,
           match first_eight file.2 with
           | Some vals => dict_set file.1 vals items
           | None => items
           end)
        default_items listing.

(** [find_matching_preset(tpl)] *)
Definition find_matching_preset (presets : list (string * list Z))
    (tpl : list Z) : string :=
  match list_find (λ item, item.2 = tpl) presets with
  | Some (_, (name, _)) => name
  | None => "Custom"
  end.

(** [last_selected] as [on_close] writes it to [presets.json]. *)
Definition on_close_last_selected (presets : list (string * list Z))
    (s : sliders) : string :=
  let matched := find_matching_preset presets (current_values s) in
  if bool_decide (matched ∈ presets.*1) then matched else "Custom".

(** The file that [save_preset_to_file] writes:
    [{'values': list(tpl)}]. *)
Definition saved_preset (s : sliders) : preset_json :=
  PresetObject (Some (current_values s)).

End PresetNames.

(* ===================================================================== *)
(** * preferences.json and the extracted text                             *)
(* ===================================================================== *)

Module PrefsFile.
Import Text Prefs.

(** The characters at which [str.splitlines] breaks a line, on
    U+0000..U+00FF: LF, VT, FF, CR, FS, GS, RS and NEL. *)
Definition is_break (c : ascii) : bool :=
  let n := N_of_ascii c in
  ((10 <=? n) && (n <=? 13) || (28 <=? n) && (n <=? 30) || (n =? 133))%N.

(** [s.splitlines()]: a break ends the current line, CR followed by LF
    counts as one break, and text after the last break is a line. *)
Fixpoint splitlines (s : string) : list string :=
  match s with
  | EmptyString => []
  | String c s' =>
      if is_break c then
        EmptyString ::
          match s' with
          | String c' s'' =>
              if (N_of_ascii c =? 13)%N && (N_of_ascii c' =? 10)%N
              then splitlines s'' else splitlines s'
          | EmptyString => []
          end
      else
        match splitlines s' with
        | [] => [String c EmptyString]
        | l :: ls => String c l :: ls
        end
  end.

(** [new_lines] of the worker from the text that the model returned:
    [extracted = gen_text.strip()], then the stripped, non-blank
    lines of [extracted]. *)
Definition extract_lines (gen_text : string) : list string :=
  new_lines_of (splitlines (strip gen_text)).

(** Every character of a string passes the test. *)
Fixpoint all_chars (test : ascii → bool) (s : string) : bool :=
  match s with
  | EmptyString => true
  | String c s' => test c && all_chars test s'
  end.

(** An item of the list in [preferences.json]: an object with a
    ['line'] string and a ['ts'] that is an integer or missing, or a
    bare string (the older format). *)
Inductive prefs_item :=
| ItemEntry (line : string) (ts : option Z)
| ItemText (text : string).

(** What [PREFS_PATH] holds. *)
Inductive prefs_file :=
| NoPrefs                              (* os.path.exists is false *)
| BadPrefs                             (* open or json.load raises *)
| PrefsItems (items : list prefs_item) (* a JSON list *)
| PrefsText (text : string)            (* a JSON string *)
| PrefsOther.                          (* any other JSON value *)

Section Clock.

Variable clock : nat → Z.

(** The loop of [save_prefs_list]:
    [{'line': str(e.get('line') or ''),
      'ts': int(e.get('ts') or int(time.time()))}];
    [n] counts the clock readings made so far. *)
Fixpoint serialise (n : nat) (entries : list entry) : list prefs_item :=
  match entries with
  | [] => []
  | e :: rest =>
      if decide (ts e = 0%Z)
      then ItemEntry (line e) (Some (clock n)) :: serialise (S n) rest
      else ItemEntry (line e) (Some (ts e)) :: serialise n rest
  end.

(** [save_prefs_list] *)
Definition save_prefs_list (entries : list entry) : prefs_file :=
  PrefsItems (serialise 0 entries).

(** The loop of [load_prefs_list] over a JSON list. *)
Fixpoint load_items (n : nat) (items : list prefs_item) : list entry :=
  match items with
  | [] => []
  | ItemEntry l (Some t) :: rest => Entry l t :: load_items n rest
  | ItemEntry l None :: rest => Entry l (clock n) :: load_items (S n) rest
  | ItemText s :: rest => Entry s (clock n) :: load_items (S n) rest
  end.

(** The loop of [load_prefs_list] over the lines of a JSON string. *)
Fixpoint load_lines (n : nat) (lines : list string) : list entry :=
  match lines with
  | [] => []
  | l :: rest =>
      if decide (strip l = EmptyString) then load_lines n rest
      else Entry (strip l) (clock n) :: load_lines (S n) rest
  end.

(** [load_prefs_list] *)
Definition load_prefs_list (f : prefs_file) : list entry :=
  match f with
  | NoPrefs => []
  | BadPrefs => []
  | PrefsItems items => load_items 0 items
  | PrefsText text => load_lines 0 (splitlines text)
  | PrefsOther => []
  end.

End Clock.

(** The new lines that survive a batch, in the order in which the merge
    leaves them: of the lines with one key only the last counts. *)
Fixpoint keep_last (new_lines : list string) : list string :=
  match new_lines with
  | [] => []
  | nl :: rest =>
      if decide (pref_key nl ∈ pref_key <$> rest) then keep_last rest
      else nl :: keep_last rest
  end.

End PrefsFile.

(* ===================================================================== *)
(** * Properties of the string primitives and of [pref_key]               *)
(* ===================================================================== *)

Section TextFacts.
Import Text.

Lemma lower_length s : String.length (lower s) = String.length s.
Proof. induction s as [|c s IH]; simpl; congruence. Qed.

Lemma lower_substring n m s :
  lower (substring n m s) = substring n m (lower s).
Proof.
  revert n m; induction s as [|c s IH]; intros [|n] [|m]; simpl;
    rewrite ?IH; reflexivity.
Qed.

Lemma prefix_eqb sep s :
  String.prefix sep s = String.eqb (substring 0 (String.length sep) s) sep.
Proof.
  destruct (String.prefix sep s) eqn:Hp.
  - apply prefix_correct in Hp. rewrite Hp. symmetry. apply String.eqb_refl.
  - symmetry. apply String.eqb_neq. intros Heq.
    apply prefix_correct in Heq. congruence.
Qed.

(** Lower-casing the line first and searching for the separator is the
    same as searching the line with case ignored. *)
Lemma find_lower sep s : find sep (lower s) = find_ci sep s.
Proof.
  induction s as [|c s IH].
  - change (find sep (lower EmptyString)) with
      (if String.prefix sep (lower EmptyString) then Some 0 else None).
    change (find_ci sep EmptyString) with
      (if String.eqb (lower (substring 0 (String.length sep) EmptyString)) sep
       then Some 0 else None).
    rewrite prefix_eqb, lower_substring. reflexivity.
  - change (find sep (lower (String c s))) with
      (if String.prefix sep (lower (String c s))
       then Some 0 else S <$> find sep (lower s)).
    change (find_ci sep (String c s)) with
      (if String.eqb (lower (substring 0 (String.length sep) (String c s))) sep
       then Some 0 else S <$> find_ci sep s).
    rewrite prefix_eqb, lower_substring.
    destruct (String.eqb _ sep); [reflexivity|]. now rewrite IH.
Qed.

Lemma lstrip_idem s : lstrip (lstrip s) = lstrip s.
Proof.
  induction s as [|c s IH]; simpl; [reflexivity|].
  destruct (is_space c) eqn:Hc; [exact IH|]. simpl. now rewrite Hc.
Qed.

Lemma rstrip_lstrip s : rstrip (lstrip s) = lstrip (rstrip s).
Proof.
  induction s as [|c s IH]; simpl; [reflexivity|].
  destruct (is_space c) eqn:Hc.
  - rewrite IH. destruct (rstrip s) eqn:Hr; simpl; [reflexivity|].
    now rewrite Hc.
  - simpl. destruct (rstrip s) eqn:Hr; simpl; now rewrite Hc.
Qed.

Lemma rstrip_idem s : rstrip (rstrip s) = rstrip s.
Proof.
  induction s as [|c s IH]; simpl; [reflexivity|].
  destruct (rstrip s) as [|d r] eqn:Hr.
  - destruct (is_space c) eqn:Hc; simpl; [reflexivity|]. now rewrite Hc.
  - change (rstrip (String c (String d r))) with
      (match rstrip (String d r) with
       | EmptyString => if is_space c then EmptyString else String c EmptyString
       | r' => String c r'
       end).
    now rewrite IH.
Qed.

(** Stripping twice is stripping once. *)
Lemma strip_idem s : strip (strip s) = strip s.
Proof.
  unfold strip.
  rewrite (rstrip_lstrip (rstrip s)), rstrip_idem, lstrip_idem. reflexivity.
Qed.

Lemma pref_key_unfold line :
  pref_key line =
  match find " is " (lower line) with
  | Some i => strip (substring 0 i (lower line))
  | None => lower line
  end.
Proof.
  unfold pref_key, contains, split1.
  destruct (find " is " (lower line)); reflexivity.
Qed.

Example pref_key_colour : pref_key "Favorite Color is Blue" = "favorite color".
Proof. reflexivity. Qed.

Example pref_key_no_is : pref_key "Likes Tea" = "likes tea".
Proof. reflexivity. Qed.

Example pref_key_upper_is : pref_key "Name IS Sam is ok" = "name".
Proof. reflexivity. Qed.

Example strip_both : strip "  a b  " = "a b".
Proof. reflexivity. Qed.

Example strip_inner_kept : strip "a  b" = "a  b".
Proof. reflexivity. Qed.

(** TAB, LF and NBSP are white space too. *)
Example strip_control_chars :
  strip (String (ascii_of_nat 9)
           (String (ascii_of_nat 160) (String "x" (String (ascii_of_nat 10)
              EmptyString))))
  = "x".
Proof. reflexivity. Qed.

Example lower_latin1 :
  lower (String (ascii_of_nat 201) (String (ascii_of_nat 215) "Z"))
  = String (ascii_of_nat 233) (String (ascii_of_nat 215) "z").
Proof. reflexivity. Qed.

(** [find_ci] returns the first matching position: the separator matches
    there when case is ignored, and at no earlier position. *)
Lemma find_ci_first sep s i :
  find_ci sep s = Some i →
  lower (substring i (String.length sep) s) = sep
  ∧ ∀ j, (j < i)%nat → lower (substring j (String.length sep) s) ≠ sep.
Proof.
  revert i; induction s as [|c s IH]; intros i.
  - change (find_ci sep EmptyString) with
      (if String.eqb (lower (substring 0 (String.length sep) EmptyString)) sep
       then Some 0%nat else None).
    destruct (String.eqb_spec
                (lower (substring 0 (String.length sep) EmptyString)) sep)
      as [He|He]; [|discriminate].
    intros [= <-]. split; [exact He|]. intros j Hj. inversion Hj.
  - change (find_ci sep (String c s)) with
      (if String.eqb (lower (substring 0 (String.length sep) (String c s))) sep
       then Some 0%nat else S <$> find_ci sep s).
    destruct (String.eqb_spec
                (lower (substring 0 (String.length sep) (String c s))) sep)
      as [He|He].
    + intros [= <-]. split; [exact He|]. intros j Hj. inversion Hj.
    + destruct (find_ci sep s) as [i'|] eqn:Hf; [|discriminate].
      intros [= <-]. destruct (IH i' eq_refl) as [Hat Hbefore].
      split; [exact Hat|].
      intros [|j] Hj; [exact He|]. apply Hbefore. lia.
Qed.

(** C3, as the code has it: the key is the lower-cased text before the
    first case-insensitive occurrence of [" is "], with the white space
    at both ends stripped; a line without such an occurrence is keyed
    by the whole lower-cased line, not stripped. *)
Theorem pref_key_is_stripped_prefix (line : string) :
  pref_key line =
  match find_ci " is " line with
  | Some i => strip (lower (substring 0 i line))
  | None => lower line
  end.
Proof.
  rewrite pref_key_unfold, find_lower.
  destruct (find_ci " is " line) as [i|]; [|reflexivity].
  now rewrite lower_substring.
Qed.

(** C3 as it is worded fails: on a line with white space before
    [" is "] the code returns the stripped prefix, the wording the
    prefix with its trailing blank. *)
Lemma pref_key_differs_from_spec_key :
  pref_key "Tea  is nice" = "tea"
  ∧ spec_key "Tea  is nice" = "tea "
  ∧ pref_key "Tea  is nice" ≠ spec_key "Tea  is nice".
Proof. repeat split; [reflexivity..|discriminate]. Qed.

End TextFacts.

(* ===================================================================== *)
(** * Properties of the preference merge                                  *)
(* ===================================================================== *)

Section PrefsFacts.
Import Text Prefs.

Variable clock : nat → Z.

Lemma represents_init : represents init [].
Proof.
  repeat split; simpl; try constructor.
  - intros e He. inversion He.
  - intros k [e He]. rewrite lookup_empty in He. discriminate.
Qed.

Lemma represents_rebuild st l : represents st l → rebuild st = Some l.
Proof.
  intros (Hk & _ & Hm & _). unfold rebuild. rewrite Hk.
  apply mapM_fmap_Forall_Some, Forall_forall. exact Hm.
Qed.

Lemma represents_lookup_None st l k :
  represents st l → mapping st !! k = None → k ∉ entry_key <$> l.
Proof.
  intros (_ & _ & Hm & _) Hnone Hin.
  apply list_elem_of_fmap in Hin as (e & -> & He).
  rewrite (Hm e He) in Hnone. discriminate.
Qed.

Lemma filter_key_absent (k : string) (l : list entry) :
  k ∉ entry_key <$> l → filter (λ e, entry_key e ≠ k) l = l.
Proof.
  induction l as [|a l IH]; intros Hk; [reflexivity|].
  rewrite fmap_cons, not_elem_of_cons in Hk. destruct Hk as [Hne Hk].
  rewrite filter_cons_True by congruence. now rewrite IH.
Qed.

(** On a list without repeated keys, removing the first occurrence of a
    key is removing the entry filed under it. *)
Lemma remove_first_keys (k : string) (l : list entry) :
  NoDup (entry_key <$> l) →
  remove_first k (entry_key <$> l)
  = entry_key <$> filter (λ e, entry_key e ≠ k) l.
Proof.
  induction l as [|a l IH]; intros Hnd; [reflexivity|].
  rewrite fmap_cons in Hnd. apply NoDup_cons in Hnd as [Hna Hnd].
  rewrite fmap_cons. simpl. destruct (decide (entry_key a = k)) as [Heq|Hne].
  - subst k. rewrite filter_cons_False by (intros H; now apply H).
    now rewrite filter_key_absent.
  - rewrite filter_cons_True by exact Hne. rewrite fmap_cons.
    now rewrite IH.
Qed.

Lemma NoDup_keys_filter (P : entry → Prop) `{∀ e, Decision (P e)}
    (l : list entry) :
  NoDup (entry_key <$> l) → NoDup (entry_key <$> filter P l).
Proof.
  induction l as [|a l IH]; intros Hnd; [constructor|].
  rewrite fmap_cons in Hnd. apply NoDup_cons in Hnd as [Hna Hnd].
  rewrite filter_cons. destruct (decide (P a)); [|auto].
  rewrite fmap_cons. apply NoDup_cons. split; [|auto].
  intros Hin. apply Hna.
  apply list_elem_of_fmap in Hin as (e & -> & He).
  apply list_elem_of_filter in He as [_ He].
  now apply list_elem_of_fmap_2.
Qed.

(** Filing [e] under its key, after the key was taken out of [keys]:
    the entry that was filed under that key goes, [e] comes last. *)
Lemma represents_replace st l e ks n :
  represents st l →
  ks = entry_key <$> filter (λ x, entry_key x ≠ entry_key e) l →
  represents (State (ks ++ [entry_key e]) (<[entry_key e := e]> (mapping st)) n)
             (filter (λ x, entry_key x ≠ entry_key e) l ++ [e]).
Proof.
  intros (Hk & Hnd & Hm & Hd) ->. repeat split; simpl.
  - now rewrite fmap_app.
  - rewrite fmap_app. apply NoDup_app. split; [now apply NoDup_keys_filter|].
    split; [|apply NoDup_singleton].
    intros k Hin. apply list_elem_of_fmap in Hin as (y & -> & Hy).
    apply list_elem_of_filter in Hy as [Hne _].
    rewrite fmap_cons, fmap_nil, list_elem_of_singleton. exact Hne.
  - intros x Hx. apply elem_of_app in Hx as [Hx|Hx].
    + apply list_elem_of_filter in Hx as [Hne Hx].
      rewrite lookup_insert_ne by congruence. auto.
    + apply list_elem_of_singleton in Hx as ->. apply lookup_insert_eq.
  - intros k Hsome. rewrite fmap_app, elem_of_app.
    destruct (decide (k = entry_key e)) as [->|Hne].
    + right. rewrite fmap_cons, fmap_nil.
      apply list_elem_of_singleton. reflexivity.
    + left. rewrite lookup_insert_ne in Hsome by congruence.
      apply Hd, list_elem_of_fmap in Hsome as (y & -> & Hy).
      apply list_elem_of_fmap_2, list_elem_of_filter. auto.
Qed.

Lemma represents_append st l ln t n :
  represents st l →
  pref_key ln ∉ entry_key <$> l →
  represents (State (keys st ++ [pref_key ln])
                    (<[pref_key ln := Entry ln t]> (mapping st)) n)
             (l ++ [Entry ln t]).
Proof.
  intros Hrep Habs.
  pose proof (represents_replace st l (Entry ln t) (keys st) n Hrep) as H.
  change (entry_key (Entry ln t)) with (pref_key ln) in H.
  rewrite filter_key_absent in H by exact Habs.
  apply H. now destruct Hrep.
Qed.

Lemma load_item_represents st l item :
  represents st l →
  represents (load_item clock st item) (load_view clock st l item).
Proof.
  intros Hrep. unfold load_item, load_view.
  destruct (decide (strip (line item) = EmptyString)) as [|Hne]; [exact Hrep|].
  destruct (mapping st !! pref_key (strip (line item))) as [e|] eqn:Hlk.
  - destruct (decide (pref_key (strip (line item)) ∈ entry_key <$> l))
      as [_|Hout]; [exact Hrep|].
    destruct Hrep as (_ & _ & _ & Hd). exfalso. apply Hout, Hd. eauto.
  - pose proof (represents_lookup_None _ _ _ Hrep Hlk) as Habs.
    destruct (decide (pref_key (strip (line item)) ∈ entry_key <$> l))
      as [Hin|_]; [contradiction|].
    destruct (decide (ts item = 0%Z)); now apply represents_append.
Qed.

(** The list after one round of the second loop: the entry filed under
    the key of [nl] is taken out, and [nl] is put last. *)
Lemma apply_line_represents st l nl :
  represents st l →
  represents (apply_line clock st nl)
    (filter (λ e, entry_key e ≠ pref_key nl) l
     ++ [Entry nl (clock (ticks st))]).
Proof.
  intros Hrep. unfold apply_line.
  apply (represents_replace st l (Entry nl (clock (ticks st)))); [exact Hrep|].
  change (entry_key (Entry nl (clock (ticks st)))) with (pref_key nl).
  destruct (mapping st !! pref_key nl) as [e|] eqn:Hlk.
  - destruct Hrep as (-> & Hnd & _). now apply remove_first_keys.
  - rewrite filter_key_absent by (eapply represents_lookup_None; eauto).
    now destruct Hrep.
Qed.

(** ** The two loops *)

Lemma loads_represent ex : ∀ st l,
  represents st l →
  represents (foldl (load_item clock) st ex) (loads_view clock st l ex).
Proof.
  induction ex as [|item ex IH]; intros st l Hrep; [exact Hrep|].
  simpl. apply IH. now apply load_item_represents.
Qed.

Lemma applies_represent news : ∀ st l,
  represents st l →
  represents (foldl (apply_line clock) st news) (applies_view clock st l news).
Proof.
  induction news as [|nl news IH]; intros st l Hrep; [exact Hrep|].
  simpl. apply IH. now apply apply_line_represents.
Qed.

Lemma run_loops_represent existing new_lines :
  represents (run_loops clock existing new_lines)
             (final_view clock existing new_lines).
Proof.
  unfold run_loops, final_view.
  apply applies_represent, loads_represent, represents_init.
Qed.

(** The comprehension [[mapping[k] for k in keys]] never raises: the
    merge always produces a list. *)
Lemma merged_total existing new_lines :
  merged clock existing new_lines = Some (final_view clock existing new_lines).
Proof. apply represents_rebuild, run_loops_represent. Qed.

Lemma merge_prefs_total existing new_lines limit :
  merge_prefs clock existing new_lines limit
  = Some (enforce_limit limit (final_view clock existing new_lines)).
Proof. unfold merge_prefs. now rewrite merged_total. Qed.

Lemma applies_view_snoc news : ∀ st l nl,
  applies_view clock st l (news ++ [nl])
  = filter (λ e, entry_key e ≠ pref_key nl) (applies_view clock st l news)
    ++ [Entry nl (clock (ticks (foldl (apply_line clock) st news)))].
Proof.
  induction news as [|x news IH]; intros st l nl; [reflexivity|].
  simpl. apply IH.
Qed.

(** Lines with other keys leave the entry filed under [k] alone. *)
Lemma applies_view_other_keys news : ∀ st l k,
  (∀ x, x ∈ news → pref_key x ≠ k) →
  filter (λ e, entry_key e = k) (applies_view clock st l news)
  = filter (λ e, entry_key e = k) l.
Proof.
  induction news as [|nl news IH]; intros st l k Hother; [reflexivity|].
  simpl. rewrite IH by (intros x Hx; apply Hother; now right).
  assert (Hnl : pref_key nl ≠ k) by (apply Hother; now left).
  rewrite filter_app, filter_cons_False, filter_nil, app_nil_r
    by (unfold entry_key; simpl; exact Hnl).
  apply list_filter_filter_l. intros e -> Heq. now apply Hnl.
Qed.

(** ** Enforcing the limit *)

Lemma pop_oldest_drop (limit : Z) (final : list entry) :
  (0 ≤ limit)%Z →
  pop_oldest limit final = drop (length final - Z.to_nat limit) final.
Proof.
  intros Hlim. induction final as [|e final IH]; [reflexivity|].
  cbn [pop_oldest]. destruct (Z.ltb_spec limit (Z.of_nat (length (e :: final))))
    as [Hlt|Hge]; cbn [length] in *.
  - rewrite IH.
    replace (S (length final) - Z.to_nat limit)%nat
      with (S (length final - Z.to_nat limit)) by lia.
    reflexivity.
  - replace (S (length final) - Z.to_nat limit)%nat with 0%nat by lia.
    reflexivity.
Qed.

Lemma enforce_limit_drop (limit : Z) (final : list entry) :
  (0 ≤ limit)%Z →
  enforce_limit limit final = drop (length final - Z.to_nat limit) final.
Proof.
  intros Hlim. unfold enforce_limit.
  destruct (Z.leb_spec 0 limit); [now apply pop_oldest_drop|lia].
Qed.

Lemma enforce_limit_suffix (limit : Z) (final : list entry) :
  ∃ oldest, final = oldest ++ enforce_limit limit final.
Proof.
  unfold enforce_limit. destruct (Z.leb_spec 0 limit) as [Hlim|_].
  - rewrite pop_oldest_drop by exact Hlim.
    eexists. symmetry. apply take_drop.
  - now exists [].
Qed.

Lemma applies_view_app news1 : ∀ st l news2,
  applies_view clock st l (news1 ++ news2)
  = applies_view clock (foldl (apply_line clock) st news1)
      (applies_view clock st l news1) news2.
Proof.
  induction news1 as [|x news1 IH]; intros st l news2; [reflexivity|].
  simpl. apply IH.
Qed.

Lemma filter_key_removed (k : string) (l : list entry) :
  filter (λ e, entry_key e = k) (filter (λ e, entry_key e ≠ k) l) = [].
Proof.
  induction l as [|a l IH]; [reflexivity|].
  destruct (decide (entry_key a = k)) as [Heq|Hne].
  - rewrite (filter_cons_False (λ e, entry_key e ≠ k)); [exact IH|].
    intros H. now apply H.
  - rewrite (filter_cons_True (λ e, entry_key e ≠ k)) by exact Hne.
    rewrite filter_cons_False by exact Hne. exact IH.
Qed.

(** ** The claims *)

(** C1. For every stored list, every list of new lines and every limit
    that is a non-negative integer, the merge produces a list, and its
    length is at most the limit; with limit 0 it is empty. *)
Theorem merge_length_within_limit
    (existing : list entry) (new_lines : list string) (limit : Z) :
  (0 ≤ limit)%Z →
  ∃ result,
    merge_prefs clock existing new_lines limit = Some result
    ∧ (Z.of_nat (length result) ≤ limit)%Z
    ∧ (limit = 0%Z → result = []).
Proof.
  intros Hlim. eexists. split; [apply merge_prefs_total|].
  rewrite enforce_limit_drop by exact Hlim. split.
  - rewrite length_drop. lia.
  - intros ->. apply drop_ge. simpl. lia.
Qed.

(** C2. Processing a new line [nl] after the lines [l1] takes the entry
    filed under the key of [nl] (if there is one) out of the list and
    puts the entry of [nl] last, the other entries keeping their order;
    when the key is new, the entry of [nl] is simply appended; and when
    no later line of the batch has the key of [nl], the one entry filed
    under that key at the end is the entry of [nl]: the last line with
    a key wins. *)
Theorem merge_new_statement_is_newest
    (existing : list entry) (l1 : list string) (nl : string)
    (l2 : list string) :
  (∀ x, x ∈ l2 → pref_key x ≠ pref_key nl) →
  ∃ before t final,
    merged clock existing l1 = Some before
    ∧ merged clock existing (l1 ++ [nl])
      = Some (filter (λ e, entry_key e ≠ pref_key nl) before ++ [Entry nl t])
    ∧ (pref_key nl ∉ entry_key <$> before →
       merged clock existing (l1 ++ [nl]) = Some (before ++ [Entry nl t]))
    ∧ merged clock existing (l1 ++ nl :: l2) = Some final
    ∧ filter (λ e, entry_key e = pref_key nl) final = [Entry nl t].
Proof.
  intros Hlater.
  exists (final_view clock existing l1),
    (clock (ticks (run_loops clock existing l1))),
    (final_view clock existing (l1 ++ nl :: l2)).
  rewrite !merged_total. split; [reflexivity|].
  assert (Hsnoc : final_view clock existing (l1 ++ [nl])
    = filter (λ e, entry_key e ≠ pref_key nl) (final_view clock existing l1)
      ++ [Entry nl (clock (ticks (run_loops clock existing l1)))])
    by apply applies_view_snoc.
  split; [now rewrite Hsnoc|].
  split; [intros Hnew; now rewrite Hsnoc, filter_key_absent|].
  split; [reflexivity|].
  replace (l1 ++ nl :: l2) with ((l1 ++ [nl]) ++ l2)
    by now rewrite <- app_assoc.
  unfold final_view at 1. rewrite applies_view_app.
  rewrite applies_view_other_keys by exact Hlater.
  fold (final_view clock existing (l1 ++ [nl])). rewrite Hsnoc.
  rewrite filter_app, filter_key_removed.
  now rewrite filter_cons_True, filter_nil.
Qed.

(** The newest entry also survives the limit, unless the limit is 0. *)
Lemma newest_survives_limit
    (existing : list entry) (l1 : list string) (nl : string) (limit : Z) :
  limit ≠ 0%Z →
  ∃ result t,
    merge_prefs clock existing (l1 ++ [nl]) limit = Some result
    ∧ last result = Some (Entry nl t).
Proof.
  intros Hlim. rewrite merge_prefs_total.
  assert (Hsnoc : final_view clock existing (l1 ++ [nl])
    = filter (λ e, entry_key e ≠ pref_key nl) (final_view clock existing l1)
      ++ [Entry nl (clock (ticks (run_loops clock existing l1)))])
    by apply applies_view_snoc.
  eexists. eexists. split; [reflexivity|]. rewrite Hsnoc.
  unfold enforce_limit. destruct (Z.leb_spec 0 limit); [|apply last_snoc].
  rewrite pop_oldest_drop, length_app by lia. simpl length.
  rewrite drop_app_le by lia. apply last_snoc.
Qed.

(** C4. Whatever the stored list holds, the list the merge produces has
    no two entries with the same normalized key. *)
Theorem merge_keys_unique
    (existing : list entry) (new_lines : list string) (limit : Z) :
  ∃ result,
    merge_prefs clock existing new_lines limit = Some result
    ∧ NoDup (entry_key <$> result).
Proof.
  eexists. split; [apply merge_prefs_total|].
  destruct (run_loops_represent existing new_lines) as (_ & Hnd & _).
  destruct (enforce_limit_suffix limit (final_view clock existing new_lines))
    as [oldest Heq].
  rewrite Heq, fmap_app in Hnd. now apply NoDup_app in Hnd as (_ & _ & Hnd).
Qed.

(** C6. When the list before truncation is longer than the limit, the
    merge keeps exactly its last [limit] entries, in their order: what
    is removed is a non-empty run of entries at the oldest end. *)
Theorem truncation_drops_oldest
    (existing : list entry) (new_lines : list string) (limit : Z)
    (final : list entry) :
  merged clock existing new_lines = Some final →
  (0 ≤ limit < Z.of_nat (length final))%Z →
  ∃ oldest result,
    merge_prefs clock existing new_lines limit = Some result
    ∧ final = oldest ++ result
    ∧ Z.of_nat (length result) = limit
    ∧ oldest ≠ [].
Proof.
  intros Hfinal [Hlim Hlong]. unfold merge_prefs. rewrite Hfinal. simpl.
  exists (take (length final - Z.to_nat limit) final),
    (enforce_limit limit final).
  rewrite enforce_limit_drop by exact Hlim.
  split; [reflexivity|]. split; [symmetry; apply take_drop|].
  split; [rewrite length_drop; lia|].
  intros Hnil. apply (f_equal length) in Hnil.
  rewrite length_take in Hnil. simpl in Hnil. lia.
Qed.

End PrefsFacts.

(** ** Merging the same statement twice *)

Section PrefsTwice.
Import Text Prefs.

(** The clocks of the first and of the second merge. *)
Variables clock1 clock2 : nat → Z.

Lemma new_lines_clean raw s :
  s ∈ new_lines_of raw → strip s = s ∧ s ≠ EmptyString.
Proof.
  unfold new_lines_of. intros Hin.
  apply list_elem_of_fmap in Hin as (l & -> & Hl).
  apply list_elem_of_filter in Hl as [Hne _].
  split; [apply strip_idem|exact Hne].
Qed.

Lemma load_view_clean clock st l item :
  Forall clean l → Forall clean (load_view clock st l item).
Proof.
  intros Hl. unfold load_view.
  destruct (decide (strip (line item) = EmptyString)) as [|Hne]; [exact Hl|].
  destruct (decide (pref_key (strip (line item)) ∈ entry_key <$> l));
    [exact Hl|].
  apply Forall_app. split; [exact Hl|].
  apply Forall_singleton. split; simpl; [apply strip_idem|exact Hne].
Qed.

Lemma loads_view_clean clock ex : ∀ st l,
  Forall clean l → Forall clean (loads_view clock st l ex).
Proof.
  induction ex as [|item ex IH]; intros st l Hl; [exact Hl|].
  simpl. apply IH. now apply load_view_clean.
Qed.

(** Loading a list of clean lines with pairwise different keys keeps
    every line, in order; only time stamps that were 0 are renewed. *)
Lemma loads_view_lines clock ex : ∀ st l,
  Forall clean ex →
  NoDup (entry_key <$> (l ++ ex)) →
  line <$> loads_view clock st l ex = line <$> (l ++ ex).
Proof.
  induction ex as [|a ex IH]; intros st l Hclean Hnd.
  - simpl. now rewrite app_nil_r.
  - apply Forall_cons in Hclean as [[Hstrip Hne] Hclean].
    assert (Habs : entry_key a ∉ entry_key <$> l).
    { rewrite fmap_app, fmap_cons in Hnd.
      apply NoDup_app in Hnd as (_ & Hdis & _).
      intros Hin. apply (Hdis _ Hin). now left. }
    simpl. unfold load_view. rewrite Hstrip.
    destruct (decide (line a = EmptyString)) as [|_]; [contradiction|].
    destruct (decide (pref_key (line a) ∈ entry_key <$> l)) as [Hin|_];
      [contradiction|].
    rewrite IH; [| exact Hclean |].
    + rewrite <- app_assoc, !fmap_app, !fmap_cons. reflexivity.
    + rewrite <- app_assoc. simpl.
      rewrite fmap_app, fmap_cons in Hnd |- *. exact Hnd.
Qed.

Lemma filter_key_lines (k : string) : ∀ l l' : list entry,
  line <$> l = line <$> l' →
  line <$> filter (λ e, entry_key e ≠ k) l
  = line <$> filter (λ e, entry_key e ≠ k) l'.
Proof.
  induction l as [|a l IH]; intros [|a' l'] Heq; try discriminate;
    [reflexivity|].
  rewrite !fmap_cons in Heq. injection Heq as Ha Hl.
  assert (Hk : entry_key a = entry_key a') by (unfold entry_key; congruence).
  rewrite !filter_cons. rewrite <- Hk.
  destruct (decide (entry_key a ≠ k)).
  - rewrite !fmap_cons. f_equal; [exact Ha|]. now apply IH.
  - now apply IH.
Qed.

Lemma key_set_lines (l l' : list entry) :
  line <$> l = line <$> l' → key_set l = key_set l'.
Proof.
  intros Heq. unfold key_set.
  change entry_key with (pref_key ∘ line).
  now rewrite !list_fmap_compose, Heq.
Qed.

(** C5. Let [s] be a statement line as the worker extracts it, and let
    the limit be at least 1.  Merging [s], and then merging [s] again
    into the result, gives a list with the same lines in the same order
    as after the first merge, hence the same key set, and with [s] as
    its newest entry. *)
Theorem merge_same_statement_twice
    (existing : list entry) (raw : list string) (s : string) (limit : Z) :
  s ∈ new_lines_of raw →
  (1 ≤ limit)%Z →
  ∃ r1 r2,
    merge_prefs clock1 existing [s] limit = Some r1
    ∧ merge_prefs clock2 r1 [s] limit = Some r2
    ∧ key_set r2 = key_set r1
    ∧ line <$> last r2 = Some s
    ∧ line <$> r2 = line <$> r1.
Proof.
  intros Hs Hlim. apply new_lines_clean in Hs as Hclean_s.
  rewrite merge_prefs_total. eexists. eexists. split; [reflexivity|].
  rewrite merge_prefs_total. split; [reflexivity|].
  (* the first merge *)
  set (L := loads_view clock1 init [] existing).
  set (t1 := clock1 (ticks (foldl (load_item clock1) init existing))).
  set (A := filter (λ e, entry_key e ≠ pref_key s) L).
  assert (HF1 : final_view clock1 existing [s] = A ++ [Entry s t1])
    by reflexivity.
  assert (HcleanF1 : Forall clean (A ++ [Entry s t1])).
  { apply Forall_app. split.
    - apply Forall_forall. intros e He.
      apply list_elem_of_filter in He as [_ He].
      assert (HL : Forall clean L)
        by (apply loads_view_clean; constructor).
      rewrite Forall_forall in HL. now apply HL.
    - apply Forall_singleton. exact Hclean_s. }
  assert (HndF1 : NoDup (entry_key <$> (A ++ [Entry s t1]))).
  { rewrite <- HF1.
    now destruct (run_loops_represent clock1 existing [s]) as (_ & Hnd & _). }
  rewrite HF1. rewrite (enforce_limit_drop limit (A ++ _)) by lia.
  rewrite length_app. simpl length.
  set (n := (length A + 1 - Z.to_nat limit)%nat).
  assert (Hn : (n ≤ length A)%nat) by (unfold n; lia).
  rewrite drop_app_le by exact Hn.
  set (A' := drop n A).
  assert (Hlen1 : (Z.of_nat (length (A' ++ [Entry s t1])) ≤ limit)%Z).
  { rewrite length_app. unfold A'. rewrite length_drop. simpl. lia. }
  assert (Hclean1 : Forall clean (A' ++ [Entry s t1])).
  { apply Forall_app in HcleanF1 as [HA Hs1]. apply Forall_app.
    split; [now apply Forall_drop|exact Hs1]. }
  assert (Hnd1 : NoDup (entry_key <$> (A' ++ [Entry s t1]))).
  { rewrite <- (take_drop n A), <- app_assoc, fmap_app in HndF1.
    now apply NoDup_app in HndF1 as (_ & _ & Hnd). }
  assert (HabsA' : pref_key s ∉ entry_key <$> A').
  { rewrite fmap_app in Hnd1. apply NoDup_app in Hnd1 as (_ & Hdis & _).
    intros Hin. apply (Hdis _ Hin). now left. }
  (* the second merge *)
  set (r1 := A' ++ [Entry s t1]) in *.
  set (L2 := loads_view clock2 init [] r1).
  set (t2 := clock2 (ticks (foldl (load_item clock2) init r1))).
  assert (HF2 : final_view clock2 r1 [s]
                = filter (λ e, entry_key e ≠ pref_key s) L2 ++ [Entry s t2])
    by reflexivity.
  assert (HL2 : line <$> L2 = line <$> r1).
  { unfold L2. rewrite loads_view_lines; [reflexivity|exact Hclean1|].
    exact Hnd1. }
  assert (Hlines : line <$> final_view clock2 r1 [s] = line <$> r1).
  { rewrite HF2, fmap_app, (filter_key_lines _ _ _ HL2). unfold r1.
    rewrite filter_app, filter_key_absent by exact HabsA'.
    rewrite filter_cons_False, filter_nil, app_nil_r
      by (intros H; now apply H).
    now rewrite fmap_app. }
  assert (Hlen2 : length (final_view clock2 r1 [s]) = length r1).
  { rewrite <- (length_fmap line), Hlines. apply length_fmap. }
  assert (Hkeep : enforce_limit limit (final_view clock2 r1 [s])
                  = final_view clock2 r1 [s]).
  { rewrite enforce_limit_drop by lia.
    replace (length (final_view clock2 r1 [s]) - Z.to_nat limit)%nat
      with 0%nat by lia.
    apply drop_0. }
  rewrite Hkeep. split; [now apply key_set_lines|]. split; [|exact Hlines].
  rewrite HF2, last_snoc. reflexivity.
Qed.

End PrefsTwice.

(** ** The merge on sample data *)

Section PrefsExamples.
Import Text Prefs.

Example sample_merged :
  merged Sample.clock Sample.existing Sample.new_lines
  = Some [ Entry "Likes tea" 1700000000;
           Entry "Name is Sam" 102;
           Entry "Pet is a cat" 1700000002;
           Entry "favorite color is teal" 1700000003 ].
Proof. vm_compute. reflexivity. Qed.

Example sample_merge_limit_2 :
  merge_prefs Sample.clock Sample.existing Sample.new_lines 2
  = Some [ Entry "Pet is a cat" 1700000002;
           Entry "favorite color is teal" 1700000003 ].
Proof. vm_compute. reflexivity. Qed.

Example sample_merge_limit_0 :
  merge_prefs Sample.clock Sample.existing Sample.new_lines 0 = Some [].
Proof. vm_compute. reflexivity. Qed.

(** A negative limit is not a limit: nothing is removed. *)
Example sample_merge_negative_limit :
  merge_prefs Sample.clock Sample.existing Sample.new_lines (-1)
  = merged Sample.clock Sample.existing Sample.new_lines.
Proof. vm_compute. reflexivity. Qed.

Lemma merge_length_within_limit_witness :
  (0 ≤ 2)%Z
  ∧ ∃ result,
      merge_prefs Sample.clock Sample.existing Sample.new_lines 2 = Some result
      ∧ (Z.of_nat (length result) ≤ 2)%Z
      ∧ (2%Z = 0%Z → result = []).
Proof.
  split; [lia|].
  apply (merge_length_within_limit
           Sample.clock Sample.existing Sample.new_lines 2).
  lia.
Defined.

Lemma merge_new_statement_is_newest_witness :
  ∃ before t final,
    merged Sample.clock Sample.existing ["Pet is a cat"] = Some before
    ∧ merged Sample.clock Sample.existing
        (["Pet is a cat"] ++ ["Favorite Color is Blue"])
      = Some (filter (λ e, entry_key e ≠ pref_key "Favorite Color is Blue")
                before ++ [Entry "Favorite Color is Blue" t])
    ∧ (pref_key "Favorite Color is Blue" ∉ entry_key <$> before →
       merged Sample.clock Sample.existing
         (["Pet is a cat"] ++ ["Favorite Color is Blue"])
       = Some (before ++ [Entry "Favorite Color is Blue" t]))
    ∧ merged Sample.clock Sample.existing
        (["Pet is a cat"] ++ "Favorite Color is Blue" :: ["Likes coffee"])
      = Some final
    ∧ filter (λ e, entry_key e = pref_key "Favorite Color is Blue") final
      = [Entry "Favorite Color is Blue" t].
Proof.
  apply (merge_new_statement_is_newest Sample.clock Sample.existing
           ["Pet is a cat"] "Favorite Color is Blue" ["Likes coffee"]).
  intros x Hx. apply list_elem_of_singleton in Hx. subst x.
  vm_compute. discriminate.
Defined.

Lemma merge_same_statement_twice_witness :
  ∃ r1 r2,
    merge_prefs Sample.clock Sample.existing ["Favorite Color is Blue"] 3
    = Some r1
    ∧ merge_prefs Sample.clock r1 ["Favorite Color is Blue"] 3 = Some r2
    ∧ key_set r2 = key_set r1
    ∧ line <$> last r2 = Some "Favorite Color is Blue"
    ∧ line <$> r2 = line <$> r1.
Proof.
  apply (merge_same_statement_twice Sample.clock Sample.clock Sample.existing
           ["  Favorite Color is Blue "; "   "] "Favorite Color is Blue" 3).
  - vm_compute. left.
  - lia.
Defined.

Lemma truncation_drops_oldest_witness :
  ∃ oldest result,
    merge_prefs Sample.clock Sample.existing Sample.new_lines 3 = Some result
    ∧ [ Entry "Likes tea" 1700000000;
        Entry "Name is Sam" 102;
        Entry "Pet is a cat" 1700000002;
        Entry "favorite color is teal" 1700000003 ] = oldest ++ result
    ∧ Z.of_nat (length result) = 3%Z
    ∧ oldest ≠ [].
Proof.
  apply (truncation_drops_oldest Sample.clock Sample.existing
           Sample.new_lines 3).
  - vm_compute. reflexivity.
  - simpl. lia.
Defined.

End PrefsExamples.

(* ===================================================================== *)
(** * Properties of [save_settings]                                       *)
(* ===================================================================== *)

Section StoreFacts.
Import Store.

Lemma set_use_local_other a data k :
  k ≠ "use_local_ai" → set_use_local a data !! k = data !! k.
Proof. intros Hk. unfold set_use_local. now rewrite lookup_insert_ne. Qed.

Lemma set_api_key_other a data k :
  k ≠ "openai_api_key" → set_api_key a data !! k = data !! k.
Proof.
  intros Hk. unfold set_api_key. destruct (api_key a) as [s|]; [|reflexivity].
  destruct (decide (s = EmptyString));
    [now rewrite lookup_delete_ne|now rewrite lookup_insert_ne].
Qed.

Lemma set_endpoint_other a data k :
  k ≠ "server_endpoint" → set_endpoint a data !! k = data !! k.
Proof.
  intros Hk. unfold set_endpoint. destruct (endpoint a) as [s|]; [|reflexivity].
  destruct (decide (s = EmptyString));
    [now rewrite lookup_delete_ne|now rewrite lookup_insert_ne].
Qed.

Lemma set_last_deleted_other now a data k :
  k ≠ "last_credential_deleted" → k ≠ "last_credential_deleted_ts" →
  set_last_deleted now a data !! k = data !! k.
Proof.
  intros Hk Hts. unfold set_last_deleted.
  destruct (last_deleted a) as [s|]; [|reflexivity].
  destruct (decide (s = EmptyString)).
  - now rewrite !lookup_delete_ne.
  - now rewrite !lookup_insert_ne.
Qed.

Lemma set_limits_other a data k :
  k ≠ "ai_history_lines" → k ≠ "pref_memory_lines" →
  set_limits a data !! k = data !! k.
Proof.
  intros Hh Hp. unfold set_limits.
  destruct (pref_memory_lines a), (ai_history_lines a);
    now rewrite ?lookup_insert_ne.
Qed.

Lemma set_model_other a data k :
  k ≠ "ai_model" → set_model a data !! k = data !! k.
Proof.
  intros Hk. unfold set_model. destruct (ai_model a); [|reflexivity].
  now rewrite lookup_insert_ne.
Qed.

(** [k] differs from a key that [H] excludes. *)
Local Ltac other_key H :=
  solve [intros <-; apply H; repeat constructor].

(** An argument that is [None] makes its assignment a no-op. *)
Lemma update_untouched now a data k :
  k ∉ touched a → update now a data !! k = data !! k.
Proof.
  unfold touched, update. intros Hk.
  rewrite !not_elem_of_app, list_elem_of_singleton in Hk.
  destruct Hk as (Hu & Hkey & Hep & Hld & Hh & Hp & Hm).
  assert (Estep1 : set_use_local a data !! k = data !! k)
    by now apply set_use_local_other.
  assert (Estep2 : ∀ d, set_api_key a d !! k = d !! k).
  { intros d. unfold set_api_key. destruct (api_key a) as [s|]; [|reflexivity].
    destruct (decide (s = EmptyString));
      [rewrite lookup_delete_ne|rewrite lookup_insert_ne];
      try reflexivity; other_key Hkey. }
  assert (Estep3 : ∀ d, set_endpoint a d !! k = d !! k).
  { intros d. unfold set_endpoint.
    destruct (endpoint a) as [s|]; [|reflexivity].
    destruct (decide (s = EmptyString));
      [rewrite lookup_delete_ne|rewrite lookup_insert_ne];
      try reflexivity; other_key Hep. }
  assert (Estep4 : ∀ d, set_last_deleted now a d !! k = d !! k).
  { intros d. unfold set_last_deleted.
    destruct (last_deleted a) as [s|]; [|reflexivity].
    destruct (decide (s = EmptyString));
      [rewrite !lookup_delete_ne|rewrite !lookup_insert_ne];
      try reflexivity; other_key Hld. }
  assert (Estep5 : ∀ d, set_limits a d !! k = d !! k).
  { intros d. unfold set_limits.
    destruct (pref_memory_lines a), (ai_history_lines a);
      rewrite ?lookup_insert_ne; try reflexivity;
      first [other_key Hp | other_key Hh]. }
  assert (Estep6 : ∀ d, set_model a d !! k = d !! k).
  { intros d. unfold set_model. destruct (ai_model a); [|reflexivity].
    rewrite lookup_insert_ne; [reflexivity|other_key Hm]. }
  now rewrite Estep6, Estep5, Estep4, Estep3, Estep2, Estep1.
Qed.

Lemma update_use_local now a data :
  update now a data !! "use_local_ai" = Some (PBool (use_local a)).
Proof.
  unfold update.
  rewrite set_model_other, set_limits_other, set_last_deleted_other,
    set_endpoint_other, set_api_key_other by discriminate.
  apply lookup_insert_eq.
Qed.

Lemma update_api_key_removed now a data :
  api_key a = Some EmptyString →
  update now a data !! "openai_api_key" = None.
Proof.
  intros Ha. unfold update.
  rewrite set_model_other, set_limits_other, set_last_deleted_other,
    set_endpoint_other by discriminate.
  unfold set_api_key. rewrite Ha. simpl. apply lookup_delete_eq.
Qed.

Lemma update_endpoint_removed now a data :
  endpoint a = Some EmptyString →
  update now a data !! "server_endpoint" = None.
Proof.
  intros Ha. unfold update.
  rewrite set_model_other, set_limits_other, set_last_deleted_other
    by discriminate.
  unfold set_endpoint. rewrite Ha. simpl. apply lookup_delete_eq.
Qed.

Lemma update_last_deleted now a data l :
  last_deleted a = Some l → l ≠ EmptyString →
  update now a data !! "last_credential_deleted" = Some (PStr l)
  ∧ update now a data !! "last_credential_deleted_ts" = Some (PInt now).
Proof.
  intros Ha Hl. unfold update.
  rewrite !set_model_other, !set_limits_other by discriminate.
  unfold set_last_deleted. rewrite Ha.
  destruct (decide (l = EmptyString)); [contradiction|]. split.
  - rewrite lookup_insert_ne by discriminate. apply lookup_insert_eq.
  - apply lookup_insert_eq.
Qed.

(** C10. A call of [save_settings] leaves every stored field alone
    whose argument is [None] ([use_local_ai] has no such argument and is
    always written).  Unless the file holds a JSON value that is true
    in Python and is not an object: [use_local_ai] is set to the given
    flag; an empty [api_key] or [endpoint] removes that field; a
    non-empty [last_deleted] sets the marker and its time stamp.  By
    the first part these writes change no other field.  On a file that
    holds such a value the call gives up and leaves the file as it
    was. *)
Theorem save_settings_frame (now : Z) (a : save_args) (f : settings_file) :
  (∀ k, k ∉ touched a →
        stored (save_settings now a f) !! k = stored f !! k)
  ∧ (f ≠ JsonOther true →
     stored (save_settings now a f) !! "use_local_ai"
     = Some (PBool (use_local a))
     ∧ (api_key a = Some EmptyString →
        stored (save_settings now a f) !! "openai_api_key" = None)
     ∧ (endpoint a = Some EmptyString →
        stored (save_settings now a f) !! "server_endpoint" = None)
     ∧ (∀ l, last_deleted a = Some l → l ≠ EmptyString →
        stored (save_settings now a f) !! "last_credential_deleted"
        = Some (PStr l)
        ∧ stored (save_settings now a f) !! "last_credential_deleted_ts"
          = Some (PInt now)))
  ∧ (f = JsonOther true → save_settings now a f = f).
Proof.
  split; [|split].
  - intros k Hk. unfold save_settings.
    destruct f as [| |d|[|]]; simpl; try reflexivity;
      rewrite update_untouched by exact Hk; reflexivity.
  - intros Hf. assert (Hw : ∃ data,
      save_settings now a f = JsonObject (update now a data)).
    { unfold save_settings.
      destruct f as [| |d|[|]]; simpl; eauto. contradiction. }
    destruct Hw as [data ->]. simpl. split; [apply update_use_local|].
    split; [apply update_api_key_removed|].
    split; [apply update_endpoint_removed|].
    intros l. apply update_last_deleted.
  - intros ->. reflexivity.
Qed.

(** C10 as it is worded fails: when [settings.json] holds a JSON value
    that is true in Python and is not an object, such as [[1]], the
    first item assignment raises, the exception is swallowed and
    nothing is written.  A call with [use_local=False] and
    [last_deleted='api_key'] leaves the file as it was: no flag and no
    marker are stored, and [load_settings] still reports local mode. *)
Lemma non_object_file_is_not_written :
  save_settings 1700000500 Sample.delete_key_args (JsonOther true)
  = JsonOther true
  ∧ stored (save_settings 1700000500 Sample.delete_key_args (JsonOther true))
      !! "use_local_ai"
    ≠ Some (PBool (use_local Sample.delete_key_args))
  ∧ stored (save_settings 1700000500 Sample.delete_key_args (JsonOther true))
      !! "last_credential_deleted"
    ≠ Some (PStr "api_key")
  ∧ get (load_settings
           (save_settings 1700000500 Sample.delete_key_args (JsonOther true)))
      "use_local_ai"
    = PBool true.
Proof.
  split; [reflexivity|]. split; [vm_compute; discriminate|].
  split; [vm_compute; discriminate|]. reflexivity.
Qed.

Example sample_delete_key :
  save_settings 1700000500 Sample.delete_key_args Sample.settings
  = JsonObject (list_to_map
      [ ("use_local_ai", PBool false);
        ("server_endpoint", PStr "http://localhost:8000/chat");
        ("pref_memory_lines", PInt 20);
        ("theme", PStr "dark");
        ("last_credential_deleted", PStr "api_key");
        ("last_credential_deleted_ts", PInt 1700000500) ]).
Proof. vm_compute. reflexivity. Qed.

Lemma save_settings_frame_witness :
  stored (save_settings 1700000500 Sample.delete_key_args Sample.settings)
    !! "theme" = stored Sample.settings !! "theme"
  ∧ stored (save_settings 1700000500 Sample.delete_key_args Sample.settings)
      !! "openai_api_key" = None
  ∧ stored (save_settings 1700000500 Sample.delete_key_args Sample.settings)
      !! "last_credential_deleted" = Some (PStr "api_key").
Proof.
  destruct (save_settings_frame 1700000500 Sample.delete_key_args
              Sample.settings) as [Hframe Hwrite].
  split.
  - apply Hframe. vm_compute. intros Hin.
    repeat (apply elem_of_cons in Hin as [Hin|Hin]; [discriminate|]).
    inversion Hin.
  - destruct Hwrite as [Hwrite _].
    destruct Hwrite as (_ & Hkey & _ & Hlast); [discriminate|].
    split; [apply Hkey; reflexivity|].
    apply (Hlast "api_key"); [reflexivity|discriminate].
Defined.

End StoreFacts.

(* ===================================================================== *)
(** * Properties of the credential prompt                                 *)
(* ===================================================================== *)

Section CredentialsFacts.
Import Store Credentials.

(** What [get_saved_api_key] returns is [None] or truthy. *)
Lemma get_saved_api_key_cases f :
  get_saved_api_key f = PNone ∨ truthy (get_saved_api_key f) = true.
Proof.
  unfold get_saved_api_key.
  destruct (truthy (get (load_settings f) "openai_api_key")) eqn:Ht; auto.
Qed.

Lemma get_saved_endpoint_cases f :
  get_saved_endpoint f = PNone ∨ truthy (get_saved_endpoint f) = true.
Proof.
  unfold get_saved_endpoint.
  destruct (truthy (get (load_settings f) "server_endpoint")) eqn:Ht; auto.
Qed.

(** C7. With neither credential saved, the startup code prompts for the
    API key when the marker says [api_key], for the endpoint when it
    says [server_endpoint], and for the API key when there is no
    marker; the mode plays no part. *)
Theorem both_missing_prompt_follows_marker
    (saved_key saved_ep : pyval) (use_local : bool) :
  truthy saved_key = false →
  truthy saved_ep = false →
  select_prompt saved_key saved_ep (PStr "api_key") use_local
  = Some PromptApiKey
  ∧ select_prompt saved_key saved_ep (PStr "server_endpoint") use_local
    = Some PromptEndpoint
  ∧ select_prompt saved_key saved_ep PNone use_local = Some PromptApiKey.
Proof.
  intros Hk He. unfold select_prompt. rewrite Hk, He. simpl.
  repeat split.
Qed.

Lemma both_missing_prompt_follows_marker_witness :
  select_prompt PNone (PStr EmptyString) (PStr "api_key") false
  = Some PromptApiKey
  ∧ select_prompt PNone (PStr EmptyString) (PStr "server_endpoint") false
    = Some PromptEndpoint
  ∧ select_prompt PNone (PStr EmptyString) PNone false = Some PromptApiKey.
Proof.
  apply (both_missing_prompt_follows_marker PNone (PStr EmptyString) false);
    reflexivity.
Defined.

(** Any marker other than ['server_endpoint'] leads to the API-key
    prompt. *)
Lemma both_missing_prompt_default saved_key saved_ep last use_local :
  truthy saved_key = false → truthy saved_ep = false →
  last ≠ PStr "server_endpoint" →
  select_prompt saved_key saved_ep last use_local = Some PromptApiKey.
Proof.
  intros Hk He Hlast. unfold select_prompt. rewrite Hk, He. simpl.
  destruct (decide (last = PStr "api_key")); [reflexivity|].
  destruct (decide (last = PStr "server_endpoint")); [contradiction|].
  reflexivity.
Qed.

(** C8, as the code has it.  With both credentials saved there is no
    prompt.  With exactly one missing, the code prompts for it only when
    it is the credential of the active mode: the API key in local mode,
    the endpoint in server mode; otherwise there is no prompt. *)
Theorem one_missing_prompt_follows_mode
    (saved_key saved_ep last : pyval) (use_local : bool) :
  (truthy saved_key = true → truthy saved_ep = true →
   select_prompt saved_key saved_ep last use_local = None)
  ∧ (truthy saved_key = false → truthy saved_ep = true →
     select_prompt saved_key saved_ep last use_local
     = if use_local then Some PromptApiKey else None)
  ∧ (truthy saved_key = true → truthy saved_ep = false →
     select_prompt saved_key saved_ep last use_local
     = if use_local then None else Some PromptEndpoint).
Proof.
  unfold select_prompt.
  repeat split; intros -> ->; simpl; now destruct use_local.
Qed.

Lemma one_missing_prompt_follows_mode_witness :
  select_prompt (PStr "sk-test") PNone PNone false = Some PromptEndpoint
  ∧ select_prompt PNone (PStr "http://host/chat") PNone true
    = Some PromptApiKey.
Proof.
  split.
  - apply (one_missing_prompt_follows_mode
             (PStr "sk-test") PNone PNone false); reflexivity.
  - apply (one_missing_prompt_follows_mode
             PNone (PStr "http://host/chat") PNone true); reflexivity.
Defined.

(** C8 as it is worded fails: in local mode, with the API key saved and
    the endpoint missing, no prompt is shown, where the wording asks
    for the endpoint prompt. *)
Lemma missing_endpoint_not_prompted_in_local_mode :
  truthy (PStr "sk-test") = true
  ∧ truthy PNone = false
  ∧ select_prompt (PStr "sk-test") PNone PNone true = None
  ∧ select_prompt (PStr "sk-test") PNone PNone true ≠ Some PromptEndpoint.
Proof. repeat split. discriminate. Qed.

(** The same two facts read from a settings file: after the API key is
    deleted from the sample settings, which are then in server mode with
    the endpoint saved, startup shows no prompt. *)
Example sample_startup_after_delete :
  startup_prompt
    (save_settings 1700000500 Sample.delete_key_args Sample.settings) = None.
Proof. vm_compute. reflexivity. Qed.

Example sample_startup_fresh_install :
  startup_prompt NoFile = Some PromptApiKey.
Proof. vm_compute. reflexivity. Qed.

End CredentialsFacts.

(* ===================================================================== *)
(** * Properties of applying a preset                                     *)
(* ===================================================================== *)

Section PresetsFacts.
Import Presets.

(** The eight statements of [apply_preset] set the eight variables to
    the first eight values, in order. *)
Lemma assign_preset_stmts (vals : list Z) (s target : sliders) :
  sliders_of vals = Some target →
  assign preset_stmts vals s = (target, true).
Proof.
  destruct vals as [|f [|p [|x [|a [|g [|h [|c [|i rest]]]]]]]];
    try discriminate.
  intros [= <-]. reflexivity.
Qed.

(** The statements of the startup code for a preset file put [vals[4]]
    into friendliness and leave gender as it was. *)
Lemma assign_file_stmts (vals : list Z) (s target : sliders) :
  sliders_of vals = Some target →
  assign file_stmts vals s
  = (Sliders (gender target) (professionalism target) (profanity target)
             (age target) (gender s) (humor target) (sarcasm target)
             (introversion target), true).
Proof.
  destruct vals as [|f [|p [|x [|a [|g [|h [|c [|i rest]]]]]]]];
    try discriminate.
  intros [= <-]. reflexivity.
Qed.

Lemma sliders_of_take (vals : list Z) :
  (8 ≤ length vals)%nat → sliders_of (take 8 vals) = sliders_of vals.
Proof.
  destruct vals as [|f [|p [|x [|a [|g [|h [|c [|i rest]]]]]]]];
    simpl; intros Hlen; try lia. reflexivity.
Qed.

(** From the Personality window, a preset file with at least eight
    integers (a bare list, or the ['values'] of an object) sets the
    eight variables to the first eight values. *)
Lemma window_applies_file_preset
    (personalities : gmap string preset_json) (name : string)
    (loaded : preset_json) (vals : list Z) (s target : sliders) :
  personalities !! name = Some loaded →
  loaded_vals loaded = Some vals →
  sliders_of vals = Some target →
  apply_preset (window_presets personalities) name s = target.
Proof.
  intros Hfile Hvals Htarget.
  assert (Hlen : (8 ≤ length vals)%nat).
  { destruct vals as [|f [|p [|x [|a [|g [|h [|c [|i rest]]]]]]]];
      try discriminate. simpl. lia. }
  unfold apply_preset, window_presets.
  assert (Hlk : (omap first_eight personalities ∪ DEFAULT_PRESETS) !! name
                = Some (take 8 vals)).
  { apply lookup_union_Some_l. rewrite lookup_omap, Hfile. simpl.
    unfold first_eight. rewrite Hvals.
    destruct (decide (8 ≤ length vals)%nat); [reflexivity|contradiction]. }
  rewrite Hlk.
  rewrite <- sliders_of_take in Htarget by exact Hlen.
  rewrite (assign_preset_stmts _ s target Htarget).
  destruct (take 8 vals); [discriminate|reflexivity].
Qed.

(** At startup, the same file is applied with [file_stmts]: unless the
    name is that of a built-in preset, friendliness receives the fifth
    value and gender keeps the value it had. *)
Lemma startup_applies_file_preset_wrongly
    (personalities : gmap string preset_json) (name : string)
    (loaded : preset_json) (vals : list Z) (s target : sliders) :
  name ≠ EmptyString →
  DEFAULT_PRESETS !! name = None →
  personalities !! name = Some loaded →
  loaded_vals loaded = Some vals →
  sliders_of vals = Some target →
  startup_apply (Some name) personalities s
  = Sliders (gender target) (professionalism target) (profanity target)
            (age target) (gender s) (humor target) (sarcasm target)
            (introversion target).
Proof.
  intros Hname Hbuiltin Hfile Hvals Htarget.
  assert (Hlen : (8 ≤ length vals)%nat).
  { destruct vals as [|f [|p [|x [|a [|g [|h [|c [|i rest]]]]]]]];
      try discriminate. simpl. lia. }
  unfold startup_apply.
  destruct (decide (name = EmptyString)); [contradiction|].
  rewrite Hbuiltin, Hfile. unfold first_eight. rewrite Hvals.
  destruct (decide (8 ≤ length vals)%nat); [|contradiction].
  rewrite <- sliders_of_take in Htarget by exact Hlen.
  now rewrite (assign_file_stmts _ s target Htarget).
Qed.

(** C9 does not hold at startup.  With [last_selected = 'mine'] and
    [personalities/mine.json] holding [[3, 2, 1, 40, 2, 1, 1, 0]], the
    Personality window sets the sliders to these eight values, and so
    does it for the object form; the startup code leaves friendliness
    at 2 (the fifth value) and gender at 1 (its initial value). *)
Theorem startup_file_preset_misses_gender :
  sliders_of Sample.mine = Some (Sliders 3 2 1 40 2 1 1 0)
  ∧ apply_preset (window_presets Sample.personalities) "mine" initial
    = Sliders 3 2 1 40 2 1 1 0
  ∧ apply_preset (window_presets Sample.personalities) "boxed" initial
    = Sliders 3 2 1 40 2 1 1 0
  ∧ startup_apply (Some "mine") Sample.personalities initial
    = Sliders 2 2 1 40 1 1 1 0
  ∧ startup_apply (Some "boxed") Sample.personalities initial
    = Sliders 2 2 1 40 1 1 1 0.
Proof. repeat split; vm_compute; reflexivity. Qed.

(** A built-in preset is applied in full at startup. *)
Example startup_builtin_preset :
  startup_apply (Some "Playful Sarcastic") Sample.personalities initial
  = Sliders 2 0 1 18 1 2 2 1.
Proof. vm_compute. reflexivity. Qed.

(** A name with no preset falls back to ['Default AI'], whose third
    value lands in professionalism. *)
Example startup_unknown_preset :
  startup_apply (Some "Custom") Sample.personalities initial
  = Sliders 2 0 0 30 1 0 0 1.
Proof. vm_compute. reflexivity. Qed.

End PresetsFacts.

(* ===================================================================== *)
(** * Properties of the settings readers and dialogs                      *)
(* ===================================================================== *)

Section ReaderFacts.
Import Text Store Credentials Dialogs.

(** Looking a field up in what [load_settings] returns. *)
Lemma load_settings_api_key f :
  get (load_settings f) "openai_api_key" = get (stored f) "openai_api_key".
Proof. destruct f as [| |d|b]; reflexivity. Qed.

Lemma load_settings_endpoint f :
  get (load_settings f) "server_endpoint" = get (stored f) "server_endpoint".
Proof. destruct f as [| |d|b]; reflexivity. Qed.

Lemma load_settings_marker f :
  get (load_settings f) "last_credential_deleted"
  = get (stored f) "last_credential_deleted".
Proof. destruct f as [| |d|b]; reflexivity. Qed.

Lemma load_settings_history_lines f :
  get (load_settings f) "ai_history_lines" = get (stored f) "ai_history_lines".
Proof. destruct f as [| |d|b]; reflexivity. Qed.

Lemma load_settings_pref_lines f :
  get (load_settings f) "pref_memory_lines"
  = get (stored f) "pref_memory_lines".
Proof. destruct f as [| |d|b]; reflexivity. Qed.

Lemma load_settings_use_local f :
  get (load_settings f) "use_local_ai"
  = PBool (truthy (default (PBool true) (stored f !! "use_local_ai"))).
Proof. destruct f as [| |d|b]; reflexivity. Qed.

Lemma load_settings_model f :
  get (load_settings f) "ai_model"
  = if truthy (get (stored f) "ai_model") then get (stored f) "ai_model"
    else PStr "gpt-4o-mini".
Proof. destruct f as [| |d|b]; reflexivity. Qed.

(** A call that writes leaves the object [update now a (stored f)]. *)
Lemma stored_save_settings now a f :
  f ≠ JsonOther true →
  stored (save_settings now a f) = update now a (stored f).
Proof.
  intros Hf. destruct f as [| |d|[|]]; try reflexivity. contradiction.
Qed.

Lemma gives_up_or_writes (f : settings_file) :
  f = JsonOther true ∨ f ≠ JsonOther true.
Proof. destruct f as [| |d|[|]]; auto; right; discriminate. Qed.

(** A call that does not write leaves the file as it was. *)
Lemma save_settings_gives_up now a :
  save_settings now a (JsonOther true) = JsonOther true.
Proof. reflexivity. Qed.

Lemma stored_untouched now a f k :
  k ∉ touched a → stored (save_settings now a f) !! k = stored f !! k.
Proof.
  intros Hk. destruct (gives_up_or_writes f) as [->|Hf];
    [reflexivity|].
  rewrite stored_save_settings by exact Hf. now apply update_untouched.
Qed.

Lemma update_api_key_set now a data k :
  api_key a = Some k → k ≠ EmptyString →
  update now a data !! "openai_api_key" = Some (PStr k).
Proof.
  intros Ha Hk. unfold update.
  rewrite set_model_other, set_limits_other, set_last_deleted_other,
    set_endpoint_other by discriminate.
  unfold set_api_key. rewrite Ha.
  destruct (decide (k = EmptyString)); [contradiction|].
  apply lookup_insert_eq.
Qed.

Lemma update_endpoint_set now a data e :
  endpoint a = Some e → e ≠ EmptyString →
  update now a data !! "server_endpoint" = Some (PStr e).
Proof.
  intros Ha He. unfold update.
  rewrite set_model_other, set_limits_other, set_last_deleted_other
    by discriminate.
  unfold set_endpoint. rewrite Ha.
  destruct (decide (e = EmptyString)); [contradiction|].
  apply lookup_insert_eq.
Qed.

Lemma update_model_set now a data m :
  ai_model a = Some m → update now a data !! "ai_model" = Some (PStr m).
Proof.
  intros Ha. unfold update, set_model. rewrite Ha. apply lookup_insert_eq.
Qed.

Lemma update_pref_lines_set now a data n :
  pref_memory_lines a = Some n →
  update now a data !! "pref_memory_lines" = Some (PInt n).
Proof.
  intros Ha. unfold update. rewrite set_model_other by discriminate.
  unfold set_limits. rewrite Ha. apply lookup_insert_eq.
Qed.

Lemma update_history_lines_set now a data n :
  ai_history_lines a = Some n → pref_memory_lines a = None →
  update now a data !! "ai_history_lines" = Some (PInt n).
Proof.
  intros Ha Hp. unfold update. rewrite set_model_other by discriminate.
  unfold set_limits. rewrite Ha, Hp. apply lookup_insert_eq.
Qed.

Lemma truthy_nonempty k : k ≠ EmptyString → truthy (PStr k) = true.
Proof.
  intros Hk. simpl. apply negb_true_iff, String.eqb_neq. exact Hk.
Qed.

Lemma not_touched_api_key a :
  api_key a = None → "openai_api_key" ∉ touched a.
Proof.
  intros Ha. unfold touched. rewrite Ha. simpl.
  destruct (endpoint a), (last_deleted a), (ai_history_lines a),
    (pref_memory_lines a), (ai_model a); simpl;
    intros Hin; repeat (apply elem_of_cons in Hin as [Hin|Hin];
                        [discriminate|]); inversion Hin.
Qed.

Lemma not_touched_endpoint a :
  endpoint a = None → "server_endpoint" ∉ touched a.
Proof.
  intros Ha. unfold touched. rewrite Ha. simpl.
  destruct (api_key a), (last_deleted a), (ai_history_lines a),
    (pref_memory_lines a), (ai_model a); simpl;
    intros Hin; repeat (apply elem_of_cons in Hin as [Hin|Hin];
                        [discriminate|]); inversion Hin.
Qed.

Lemma not_touched_marker a :
  last_deleted a = None → "last_credential_deleted" ∉ touched a.
Proof.
  intros Ha. unfold touched. rewrite Ha. simpl.
  destruct (api_key a), (endpoint a), (ai_history_lines a),
    (pref_memory_lines a), (ai_model a); simpl;
    intros Hin; repeat (apply elem_of_cons in Hin as [Hin|Hin];
                        [discriminate|]); inversion Hin.
Qed.

Lemma save_settings_writes now a f :
  f ≠ JsonOther true → save_settings now a f ≠ JsonOther true.
Proof. destruct f as [| |d|[|]]; intros Hf; try discriminate. contradiction. Qed.

Lemma api_key_read_back now a f k :
  f ≠ JsonOther true → api_key a = Some k → k ≠ EmptyString →
  get_saved_api_key (save_settings now a f) = PStr k.
Proof.
  intros Hf Ha Hk. unfold get_saved_api_key.
  rewrite load_settings_api_key, stored_save_settings by exact Hf.
  unfold get. rewrite (update_api_key_set _ _ _ _ Ha Hk). simpl default.
  now rewrite truthy_nonempty.
Qed.

Lemma endpoint_read_back now a f e :
  f ≠ JsonOther true → endpoint a = Some e → e ≠ EmptyString →
  get_saved_endpoint (save_settings now a f) = PStr e.
Proof.
  intros Hf Ha He. unfold get_saved_endpoint.
  rewrite load_settings_endpoint, stored_save_settings by exact Hf.
  unfold get. rewrite (update_endpoint_set _ _ _ _ Ha He). simpl default.
  now rewrite truthy_nonempty.
Qed.

Lemma api_key_read_none now a f :
  api_key a = Some EmptyString →
  get_saved_api_key (save_settings now a f) = PNone.
Proof.
  intros Ha. unfold get_saved_api_key. rewrite load_settings_api_key.
  destruct (gives_up_or_writes f) as [->|Hf]; [reflexivity|].
  rewrite stored_save_settings by exact Hf. unfold get.
  now rewrite update_api_key_removed.
Qed.

Lemma endpoint_read_none now a f :
  endpoint a = Some EmptyString →
  get_saved_endpoint (save_settings now a f) = PNone.
Proof.
  intros Ha. unfold get_saved_endpoint. rewrite load_settings_endpoint.
  destruct (gives_up_or_writes f) as [->|Hf]; [reflexivity|].
  rewrite stored_save_settings by exact Hf. unfold get.
  now rewrite update_endpoint_removed.
Qed.

Lemma api_key_unchanged now a f :
  api_key a = None →
  get_saved_api_key (save_settings now a f) = get_saved_api_key f.
Proof.
  intros Ha. unfold get_saved_api_key. rewrite !load_settings_api_key.
  unfold get. now rewrite stored_untouched by now apply not_touched_api_key.
Qed.

Lemma endpoint_unchanged now a f :
  endpoint a = None →
  get_saved_endpoint (save_settings now a f) = get_saved_endpoint f.
Proof.
  intros Ha. unfold get_saved_endpoint. rewrite !load_settings_endpoint.
  unfold get. now rewrite stored_untouched by now apply not_touched_endpoint.
Qed.

Lemma marker_read_back now a f l :
  f ≠ JsonOther true → last_deleted a = Some l → l ≠ EmptyString →
  get (load_settings (save_settings now a f)) "last_credential_deleted"
  = PStr l.
Proof.
  intros Hf Ha Hl.
  rewrite load_settings_marker, stored_save_settings by exact Hf.
  unfold get.
  now rewrite (proj1 (update_last_deleted now a (stored f) l Ha Hl)).
Qed.

Lemma marker_unchanged now a f :
  last_deleted a = None →
  get (load_settings (save_settings now a f)) "last_credential_deleted"
  = get (load_settings f) "last_credential_deleted".
Proof.
  intros Ha. rewrite !load_settings_marker. unfold get.
  now rewrite stored_untouched by now apply not_touched_marker.
Qed.

Lemma mode_read_back now a f :
  f ≠ JsonOther true →
  get (load_settings (save_settings now a f)) "use_local_ai"
  = PBool (use_local a).
Proof.
  intros Hf. rewrite load_settings_use_local, stored_save_settings
    by exact Hf.
  rewrite update_use_local. simpl. now destruct (use_local a).
Qed.

(** X1. A credential passed to [save_settings] as a non-empty string is
    what [get_saved_api_key] (or [get_saved_endpoint]) returns
    afterwards, whatever the other arguments are, provided the call
    writes. *)
Theorem saved_credentials_read_back
    (now : Z) (a : save_args) (f : settings_file) :
  f ≠ JsonOther true →
  (∀ k, api_key a = Some k → k ≠ EmptyString →
        get_saved_api_key (save_settings now a f) = PStr k)
  ∧ (∀ e, endpoint a = Some e → e ≠ EmptyString →
          get_saved_endpoint (save_settings now a f) = PStr e).
Proof.
  intros Hf. split.
  - intros k. now apply api_key_read_back.
  - intros e. now apply endpoint_read_back.
Qed.

(** X2. After a call with an empty [api_key] (or [endpoint]), the
    reader of that credential returns [None], in every state of the
    file. *)
Theorem removed_credentials_read_none
    (now : Z) (a : save_args) (f : settings_file) :
  (api_key a = Some EmptyString →
   get_saved_api_key (save_settings now a f) = PNone)
  ∧ (endpoint a = Some EmptyString →
     get_saved_endpoint (save_settings now a f) = PNone).
Proof. split; [apply api_key_read_none|apply endpoint_read_none]. Qed.

(** X3. A call that passes no [api_key] (or no [endpoint]) leaves what
    the reader of that credential returns as it was, in every state of
    the file. *)
Theorem unnamed_credentials_unchanged
    (now : Z) (a : save_args) (f : settings_file) :
  (api_key a = None →
   get_saved_api_key (save_settings now a f) = get_saved_api_key f)
  ∧ (endpoint a = None →
     get_saved_endpoint (save_settings now a f) = get_saved_endpoint f).
Proof. split; [apply api_key_unchanged|apply endpoint_unchanged]. Qed.

(** X4. [get_saved_ai_model] never returns a false value: it is the
    model stored in the file when that is truthy, and ['gpt-4o-mini']
    otherwise; after the model dialog has saved a non-empty name, it
    is that name. *)
Theorem saved_ai_model_never_empty
    (now : Z) (selected : string) (f : settings_file) :
  truthy (get_saved_ai_model f) = true
  ∧ (truthy (get (stored f) "ai_model") = false →
     get_saved_ai_model f = PStr "gpt-4o-mini")
  ∧ (f ≠ JsonOther true → selected ≠ EmptyString →
     get_saved_ai_model (select_ai_model_save now selected f) = PStr selected).
Proof.
  unfold get_saved_ai_model. split; [|split].
  - rewrite load_settings_model.
    destruct (truthy (get (stored f) "ai_model")) eqn:Ht; rewrite ?Ht;
      reflexivity.
  - intros Hfalse. rewrite load_settings_model, Hfalse. reflexivity.
  - intros Hf Hsel. unfold select_ai_model_save.
    rewrite load_settings_model, stored_save_settings by exact Hf.
    unfold get.
    rewrite (update_model_set now
               (SaveArgs true None None None None None (Some selected))
               (stored f) selected eq_refl).
    simpl default. now rewrite !truthy_nonempty.
Qed.

End ReaderFacts.

Lemma saved_credentials_read_back_witness :
  Store.get_saved_api_key
    (Store.save_settings 1700000500
       (Store.SaveArgs true (Some "sk-new") None None None None None)
       Store.NoFile)
  = Store.PStr "sk-new".
Proof.
  apply (saved_credentials_read_back 1700000500
           (Store.SaveArgs true (Some "sk-new") None None None None None)
           Store.NoFile); [discriminate|reflexivity|discriminate].
Defined.

Lemma removed_credentials_read_none_witness :
  Store.get_saved_api_key
    (Store.save_settings 1700000500 Sample.delete_key_args Sample.settings)
  = Store.PNone.
Proof.
  apply (removed_credentials_read_none 1700000500 Sample.delete_key_args
           Sample.settings).
  reflexivity.
Defined.

Lemma unnamed_credentials_unchanged_witness :
  Store.get_saved_endpoint
    (Store.save_settings 1700000500 Sample.delete_key_args Sample.settings)
  = Store.get_saved_endpoint Sample.settings.
Proof.
  apply (unnamed_credentials_unchanged 1700000500 Sample.delete_key_args
           Sample.settings).
  reflexivity.
Defined.

Lemma saved_ai_model_never_empty_witness :
  Dialogs.get_saved_ai_model
    (Dialogs.select_ai_model_save 1700000500 "gpt-5-mini" Sample.settings)
  = Store.PStr "gpt-5-mini".
Proof.
  apply (saved_ai_model_never_empty 1700000500 "gpt-5-mini" Sample.settings);
    discriminate.
Defined.

Section DialogFacts.
Import Text Prefs Store Credentials Dialogs.

Lemma prompt_for_marker saved_key saved_ep l use_local :
  truthy saved_key = false → truthy saved_ep = false →
  select_prompt saved_key saved_ep (PStr l) use_local
  = if decide (l = "server_endpoint") then Some PromptEndpoint
    else Some PromptApiKey.
Proof.
  intros Hk He. unfold select_prompt. rewrite Hk, He. simpl.
  destruct (decide (PStr l = PStr "api_key")) as [[= ->]|Hne];
    [reflexivity|].
  destruct (decide (PStr l = PStr "server_endpoint")) as [[= ->]|Hne'].
  - reflexivity.
  - destruct (decide (l = "server_endpoint")); [congruence|reflexivity].
Qed.

(** ** The credential prompts *)

Lemma prompt_for_api_key_eq now script st :
  prompt_for_api_key now script st
  = if truthy (get_saved_api_key (settings st)) then Some st
    else
      match script with
      | [] => None
      | Enter text :: rest =>
          if decide (strip text = EmptyString)
          then prompt_for_api_key now rest st
          else Some (App (save_settings now
                            (SaveArgs true (Some (strip text)) None None
                                      None None None) (settings st))
                         (use_local_var st))
      | Switch :: rest =>
          if negb (truthy (get_saved_endpoint
                             (save_settings now
                                (SaveArgs false None None None None None None)
                                (settings st))))
          then prompt_for_endpoint now rest
                 (App (save_settings now
                         (SaveArgs false None None None None None None)
                         (settings st)) false)
          else Some (App (save_settings now
                            (SaveArgs false None None None None None None)
                            (settings st)) false)
      end.
Proof. destruct script as [|[text|] rest]; reflexivity. Qed.

Lemma prompt_for_endpoint_eq now script st :
  prompt_for_endpoint now script st
  = if truthy (get_saved_endpoint (settings st)) then Some st
    else
      match script with
      | [] => None
      | Enter text :: rest =>
          if decide (strip text = EmptyString)
          then prompt_for_endpoint now rest st
          else Some (App (save_settings now
                            (SaveArgs false None (Some (strip text)) None
                                      None None None) (settings st))
                         (use_local_var st))
      | Switch :: rest =>
          if negb (truthy (get_saved_api_key
                             (save_settings now
                                (SaveArgs true None None None None None None)
                                (settings st))))
          then prompt_for_api_key now rest
                 (App (save_settings now
                         (SaveArgs true None None None None None None)
                         (settings st)) true)
          else Some (App (save_settings now
                            (SaveArgs true None None None None None None)
                            (settings st)) true)
      end.
Proof. destruct script as [|[text|] rest]; reflexivity. Qed.

(** A prompt whose credential is missing stays open until the user
    acts. *)
Lemma prompt_for_api_key_blocks now st :
  truthy (get_saved_api_key (settings st)) = false →
  prompt_for_api_key now [] st = None.
Proof. intros Hk. rewrite prompt_for_api_key_eq, Hk. reflexivity. Qed.

Lemma prompt_for_endpoint_blocks now st :
  truthy (get_saved_endpoint (settings st)) = false →
  prompt_for_endpoint now [] st = None.
Proof. intros He. rewrite prompt_for_endpoint_eq, He. reflexivity. Qed.

(** A non-blank text entered first is stored as the credential of the
    prompt. *)
Lemma prompt_for_api_key_enter now text rest st :
  truthy (get_saved_api_key (settings st)) = false →
  strip text ≠ EmptyString →
  prompt_for_api_key now (Enter text :: rest) st
  = Some (App (save_settings now
                 (SaveArgs true (Some (strip text)) None None None None None)
                 (settings st))
              (use_local_var st)).
Proof.
  intros Hk Ht. rewrite prompt_for_api_key_eq, Hk.
  destruct (decide (strip text = EmptyString)); [contradiction|reflexivity].
Qed.

Lemma prompt_for_endpoint_enter now text rest st :
  truthy (get_saved_endpoint (settings st)) = false →
  strip text ≠ EmptyString →
  prompt_for_endpoint now (Enter text :: rest) st
  = Some (App (save_settings now
                 (SaveArgs false None (Some (strip text)) None None None None)
                 (settings st))
              (use_local_var st)).
Proof.
  intros He Ht. rewrite prompt_for_endpoint_eq, He.
  destruct (decide (strip text = EmptyString)); [contradiction|reflexivity].
Qed.

Lemma enters_text_cons a rest :
  enters_text (a :: rest) →
  (∃ text, a = Enter text ∧ strip text ≠ EmptyString) ∨ enters_text rest.
Proof.
  intros (text & Hin & Ht). apply elem_of_cons in Hin as [<-|Hin].
  - left. now exists text.
  - right. now exists text.
Qed.

(** Once the user enters a text that is not blank, both prompts
    return. *)
Lemma prompts_return now script :
  enters_text script →
  ∀ st, is_Some (prompt_for_api_key now script st)
        ∧ is_Some (prompt_for_endpoint now script st).
Proof.
  induction script as [|a rest IH]; intros Hs st.
  { destruct Hs as (text & Hin & _). inversion Hin. }
  apply enters_text_cons in Hs.
  rewrite (prompt_for_api_key_eq now (a :: rest) st),
    (prompt_for_endpoint_eq now (a :: rest) st).
  split.
  - destruct (truthy (get_saved_api_key (settings st))); [eauto|].
    destruct a as [text|].
    + destruct (decide (strip text = EmptyString)) as [Hb|Hb]; [|eauto].
      destruct Hs as [(t & [= <-] & Ht)|Hs]; [contradiction|].
      now apply IH.
    + destruct Hs as [(t & [=] & _)|Hs].
      destruct (negb _); [now apply IH|eauto].
  - destruct (truthy (get_saved_endpoint (settings st))); [eauto|].
    destruct a as [text|].
    + destruct (decide (strip text = EmptyString)) as [Hb|Hb]; [|eauto].
      destruct Hs as [(t & [= <-] & Ht)|Hs]; [contradiction|].
      now apply IH.
    + destruct Hs as [(t & [=] & _)|Hs].
      destruct (negb _); [now apply IH|eauto].
Qed.

(** A prompt never removes or changes a credential that is saved. *)
Lemma keeps_saved_refl st : keeps_saved st st.
Proof. split; reflexivity. Qed.

Lemma keeps_saved_trans st mid after :
  keeps_saved st mid → keeps_saved mid after → keeps_saved st after.
Proof.
  intros [Hk He] [Hk' He']. split; intros Ht.
  - rewrite Hk', Hk; [reflexivity|exact Ht|]. now rewrite Hk.
  - rewrite He', He; [reflexivity|exact Ht|]. now rewrite He.
Qed.

Lemma keeps_saved_mode now mode var st :
  keeps_saved st
    (App (save_settings now (SaveArgs mode None None None None None None)
            (settings st)) var).
Proof.
  split; intros _; cbn [settings];
    [now apply api_key_unchanged|now apply endpoint_unchanged].
Qed.

Lemma prompts_keep_saved now script :
  ∀ st after,
    (prompt_for_api_key now script st = Some after → keeps_saved st after)
    ∧ (prompt_for_endpoint now script st = Some after → keeps_saved st after).
Proof.
  induction script as [|a rest IH]; intros st after;
    [rewrite (prompt_for_api_key_eq now [] st),
       (prompt_for_endpoint_eq now [] st)
    |rewrite (prompt_for_api_key_eq now (a :: rest) st),
       (prompt_for_endpoint_eq now (a :: rest) st)]; split.
  - destruct (truthy _); [intros [= <-]; apply keeps_saved_refl|discriminate].
  - destruct (truthy _); [intros [= <-]; apply keeps_saved_refl|discriminate].
  - destruct (truthy (get_saved_api_key (settings st))) eqn:Hk;
      [intros [= <-]; apply keeps_saved_refl|].
    destruct a as [text|].
    + destruct (decide (strip text = EmptyString)); [apply IH|].
      intros [= <-]. split; cbn [settings]; intros Ht; [congruence|].
      now apply endpoint_unchanged.
    + destruct (negb _).
      * intros Hrun. apply (proj2 (IH _ after)) in Hrun.
        eapply keeps_saved_trans; [|exact Hrun]. apply keeps_saved_mode.
      * intros [= <-]. apply keeps_saved_mode.
  - destruct (truthy (get_saved_endpoint (settings st))) eqn:He;
      [intros [= <-]; apply keeps_saved_refl|].
    destruct a as [text|].
    + destruct (decide (strip text = EmptyString)); [apply IH|].
      intros [= <-]. split; cbn [settings]; intros Ht; [|congruence].
      now apply api_key_unchanged.
    + destruct (negb _).
      * intros Hrun. apply (proj1 (IH _ after)) in Hrun.
        eapply keeps_saved_trans; [|exact Hrun]. apply keeps_saved_mode.
      * intros [= <-]. apply keeps_saved_mode.
Qed.

(** Settings on which the program starts without a prompt. *)
Lemma startup_ready_local f :
  get (load_settings f) "use_local_ai" = PBool true →
  truthy (get_saved_api_key f) = true →
  startup_prompt f = None.
Proof.
  intros Hm Hk. unfold startup_prompt, select_prompt. now rewrite Hm, Hk.
Qed.

Lemma startup_ready_server f :
  get (load_settings f) "use_local_ai" = PBool false →
  truthy (get_saved_endpoint f) = true →
  startup_prompt f = None.
Proof.
  intros Hm He. unfold startup_prompt, select_prompt. rewrite Hm, He.
  now rewrite andb_false_r.
Qed.

(** A prompt that has been open returns with the credential of the
    stored mode saved. *)
Lemma prompts_ready now script :
  ∀ st after,
    settings st ≠ JsonOther true →
    (truthy (get_saved_api_key (settings st)) = false →
     prompt_for_api_key now script st = Some after →
     startup_prompt (settings after) = None)
    ∧ (truthy (get_saved_endpoint (settings st)) = false →
       prompt_for_endpoint now script st = Some after →
       startup_prompt (settings after) = None).
Proof.
  induction script as [|a rest IH]; intros st after Hf;
    [rewrite (prompt_for_api_key_eq now [] st),
       (prompt_for_endpoint_eq now [] st)
    |rewrite (prompt_for_api_key_eq now (a :: rest) st),
       (prompt_for_endpoint_eq now (a :: rest) st)]; split;
    intros Hmiss; rewrite Hmiss; try discriminate.
  - destruct a as [text|].
    + destruct (decide (strip text = EmptyString)) as [Hb|Hb];
        [now apply IH|].
      intros [= <-]. cbn [settings]. apply startup_ready_local.
      * now apply mode_read_back.
      * rewrite (api_key_read_back now
                   (SaveArgs true (Some (strip text)) None None None None
                             None) _ (strip text) Hf eq_refl Hb).
        now apply truthy_nonempty.
    + set (f' := save_settings now
                   (SaveArgs false None None None None None None)
                   (settings st)).
      destruct (truthy (get_saved_endpoint f')) eqn:He; simpl negb; cbv iota.
      * intros [= <-]. cbn [settings]. apply startup_ready_server;
          [now apply mode_read_back|exact He].
      * apply IH; [now apply save_settings_writes|exact He].
  - destruct a as [text|].
    + destruct (decide (strip text = EmptyString)) as [Hb|Hb];
        [now apply IH|].
      intros [= <-]. cbn [settings]. apply startup_ready_server.
      * now apply mode_read_back.
      * rewrite (endpoint_read_back now
                   (SaveArgs false None (Some (strip text)) None None None
                             None) _ (strip text) Hf eq_refl Hb).
        now apply truthy_nonempty.
    + set (f' := save_settings now
                   (SaveArgs true None None None None None None)
                   (settings st)).
      destruct (truthy (get_saved_api_key f')) eqn:Hk; simpl negb; cbv iota.
      * intros [= <-]. cbn [settings]. apply startup_ready_local;
          [now apply mode_read_back|exact Hk].
      * apply IH; [now apply save_settings_writes|exact Hk].
Qed.

(** ** Removing a credential *)

(** With the endpoint missing, the removal of the key goes on to the
    API-key prompt; with the key missing, the removal of the endpoint
    goes on to the endpoint prompt. *)
Lemma save_new_api_key_prompts now script st :
  truthy (get_saved_endpoint (settings st)) = false →
  save_new_api_key now script None st
  = prompt_for_api_key now script (remove_api_key now st).
Proof.
  intros He. unfold save_new_api_key, remove_api_key. cbn [settings].
  rewrite api_key_read_none by reflexivity.
  rewrite endpoint_unchanged by reflexivity. now rewrite He.
Qed.

Lemma save_new_endpoint_prompts now script st :
  truthy (get_saved_api_key (settings st)) = false →
  save_new_endpoint now script None st
  = prompt_for_endpoint now script (remove_endpoint now st).
Proof.
  intros Hk. unfold save_new_endpoint, remove_endpoint. cbn [settings].
  rewrite endpoint_read_none by reflexivity.
  rewrite api_key_unchanged by reflexivity. now rewrite Hk.
Qed.


(** X5. Removing the last credential through its settings dialog opens
    the prompt for the credential just removed, and the handler returns
    only when the user has left that prompt.  With the endpoint missing,
    [manage_api_key.save_new(None)] does not return while the user does
    nothing; the file as it stands while the prompt is open starts the
    program with the API-key prompt; a text that is not blank, entered
    first, is saved as the API key; and whenever the handler returns,
    the next start shows no prompt.  The same holds of
    [manage_endpoint.save_new(None)] with the key missing, for the
    endpoint. *)
Theorem last_removed_credential_is_prompted
    (now : Z) (script : list action) (st : app) :
  settings st ≠ JsonOther true →
  (truthy (get_saved_endpoint (settings st)) = false →
   save_new_api_key now [] None st = None
   ∧ startup_prompt (settings (remove_api_key now st)) = Some PromptApiKey
   ∧ (∀ text, strip text ≠ EmptyString →
      ∃ after,
        save_new_api_key now (Enter text :: script) None st = Some after
        ∧ get_saved_api_key (settings after) = PStr (strip text))
   ∧ (∀ after, save_new_api_key now script None st = Some after →
      startup_prompt (settings after) = None))
  ∧ (truthy (get_saved_api_key (settings st)) = false →
     save_new_endpoint now [] None st = None
     ∧ startup_prompt (settings (remove_endpoint now st))
       = Some PromptEndpoint
     ∧ (∀ text, strip text ≠ EmptyString →
        ∃ after,
          save_new_endpoint now (Enter text :: script) None st = Some after
          ∧ get_saved_endpoint (settings after) = PStr (strip text))
     ∧ (∀ after, save_new_endpoint now script None st = Some after →
        startup_prompt (settings after) = None)).
Proof.
  intros Hf. split.
  - intros He.
    assert (Hk' : get_saved_api_key (settings (remove_api_key now st))
                  = PNone) by now apply api_key_read_none.
    assert (He' : truthy (get_saved_endpoint
                            (settings (remove_api_key now st))) = false).
    { unfold remove_api_key. cbn [settings].
      now rewrite endpoint_unchanged by reflexivity. }
    assert (Hf' : settings (remove_api_key now st) ≠ JsonOther true)
      by now apply save_settings_writes.
    split; [|split; [|split]].
    + rewrite save_new_api_key_prompts by exact He.
      apply prompt_for_api_key_blocks. now rewrite Hk'.
    + unfold startup_prompt. rewrite Hk'. unfold remove_api_key at 2.
      cbn [settings].
      rewrite (marker_read_back now
                 (SaveArgs (use_local_var st) (Some EmptyString) None
                           (Some "api_key") None None None)
                 _ "api_key" Hf eq_refl) by discriminate.
      now rewrite prompt_for_marker.
    + intros text Ht. eexists. split.
      * rewrite save_new_api_key_prompts by exact He.
        apply prompt_for_api_key_enter; [now rewrite Hk'|exact Ht].
      * cbn [settings]. now apply api_key_read_back.
    + intros after. rewrite save_new_api_key_prompts by exact He.
      apply prompts_ready; [exact Hf'|now rewrite Hk'].
  - intros Hk.
    assert (He' : get_saved_endpoint (settings (remove_endpoint now st))
                  = PNone) by now apply endpoint_read_none.
    assert (Hk' : truthy (get_saved_api_key
                            (settings (remove_endpoint now st))) = false).
    { unfold remove_endpoint. cbn [settings].
      now rewrite api_key_unchanged by reflexivity. }
    assert (Hf' : settings (remove_endpoint now st) ≠ JsonOther true)
      by now apply save_settings_writes.
    split; [|split; [|split]].
    + rewrite save_new_endpoint_prompts by exact Hk.
      apply prompt_for_endpoint_blocks. now rewrite He'.
    + unfold startup_prompt. rewrite He'. unfold remove_endpoint at 2.
      cbn [settings].
      rewrite (marker_read_back now
                 (SaveArgs (use_local_var st) None (Some EmptyString)
                           (Some "server_endpoint") None None None)
                 _ "server_endpoint" Hf eq_refl) by discriminate.
      now rewrite prompt_for_marker.
    + intros text Ht. eexists. split.
      * rewrite save_new_endpoint_prompts by exact Hk.
        apply prompt_for_endpoint_enter; [now rewrite He'|exact Ht].
      * cbn [settings]. now apply endpoint_read_back.
    + intros after. rewrite save_new_endpoint_prompts by exact Hk.
      apply prompts_ready; [exact Hf'|now rewrite He'].
Qed.

Lemma last_removed_credential_is_prompted_witness :
  ∃ after,
    save_new_api_key 1700000500 [Enter " sk-new "; Switch] None
      (App Sample.only_key true) = Some after
    ∧ get_saved_api_key (settings after) = PStr "sk-new".
Proof.
  apply (last_removed_credential_is_prompted 1700000500 [Switch]
           (App Sample.only_key true));
    [discriminate|reflexivity|vm_compute; discriminate].
Defined.

(** ** Switching the mode *)

(** The credential of the new mode is what [toggle_use_local] asks
    for; the prompt returns at once when it is saved. *)
Lemma toggle_use_local_runs now script st :
  toggle_use_local now script st
  = if use_local_var st
    then prompt_for_api_key now script
           (App (save_settings now
                   (SaveArgs true None None None None None None)
                   (settings st)) true)
    else prompt_for_endpoint now script
           (App (save_settings now
                   (SaveArgs false None None None None None None)
                   (settings st)) false).
Proof.
  unfold toggle_use_local. destruct (use_local_var st).
  - rewrite prompt_for_api_key_eq. cbn [settings].
    now destruct (truthy _).
  - rewrite prompt_for_endpoint_eq. cbn [settings].
    now destruct (truthy _).
Qed.

(** X6. [toggle_use_local] never removes or changes a credential that
    is saved, and whenever it returns, the next start shows no prompt.
    When the credential of the new mode is saved it returns at once and
    has stored the mode only; when that credential is missing it does
    not return while the user does nothing in the prompt, and it
    returns once the user enters a text that is not blank. *)
Theorem toggle_keeps_credentials
    (now : Z) (script : list action) (st : app) :
  (∀ after, toggle_use_local now script st = Some after →
     (truthy (get_saved_api_key (settings st)) = true →
      get_saved_api_key (settings after) = get_saved_api_key (settings st))
     ∧ (truthy (get_saved_endpoint (settings st)) = true →
        get_saved_endpoint (settings after)
        = get_saved_endpoint (settings st))
     ∧ (settings st ≠ JsonOther true →
        startup_prompt (settings after) = None))
  ∧ (truthy (if use_local_var st then get_saved_api_key (settings st)
             else get_saved_endpoint (settings st)) = true →
     toggle_use_local now script st
     = Some (App (save_settings now
                    (SaveArgs (use_local_var st) None None None None None
                              None) (settings st))
                 (use_local_var st)))
  ∧ (truthy (if use_local_var st then get_saved_api_key (settings st)
             else get_saved_endpoint (settings st)) = false →
     toggle_use_local now [] st = None
     ∧ (enters_text script → is_Some (toggle_use_local now script st))).
Proof.
  rewrite !toggle_use_local_runs. destruct (use_local_var st) eqn:Hv.
  - assert (Hk : get_saved_api_key
                   (save_settings now
                      (SaveArgs true None None None None None None)
                      (settings st))
                 = get_saved_api_key (settings st))
      by now apply api_key_unchanged.
    split; [|split].
    + intros after Hrun.
      destruct (keeps_saved_trans _ _ _
                  (keeps_saved_mode now true true st)
                  (proj1 (prompts_keep_saved now script _ after) Hrun))
        as [Hsk Hse].
      split; [exact Hsk|]. split; [exact Hse|]. intros Hf.
      destruct (truthy (get_saved_api_key (settings st))) eqn:Hmiss.
      * rewrite prompt_for_api_key_eq in Hrun. cbn [settings] in Hrun.
        rewrite Hk, Hmiss in Hrun. injection Hrun as <-. cbn [settings].
        apply startup_ready_local; [now apply mode_read_back|].
        now rewrite Hk.
      * revert Hrun. apply prompts_ready; cbn [settings];
          [now apply save_settings_writes|now rewrite Hk].
    + intros Ht. rewrite prompt_for_api_key_eq. cbn [settings].
      now rewrite Hk, Ht.
    + intros Hmiss. split.
      * apply prompt_for_api_key_blocks. cbn [settings]. now rewrite Hk.
      * intros Hs. now apply prompts_return.
  - assert (He : get_saved_endpoint
                   (save_settings now
                      (SaveArgs false None None None None None None)
                      (settings st))
                 = get_saved_endpoint (settings st))
      by now apply endpoint_unchanged.
    split; [|split].
    + intros after Hrun.
      destruct (keeps_saved_trans _ _ _
                  (keeps_saved_mode now false false st)
                  (proj2 (prompts_keep_saved now script _ after) Hrun))
        as [Hsk Hse].
      split; [exact Hsk|]. split; [exact Hse|]. intros Hf.
      destruct (truthy (get_saved_endpoint (settings st))) eqn:Hmiss.
      * rewrite prompt_for_endpoint_eq in Hrun. cbn [settings] in Hrun.
        rewrite He, Hmiss in Hrun. injection Hrun as <-. cbn [settings].
        apply startup_ready_server; [now apply mode_read_back|].
        now rewrite He.
      * revert Hrun. apply prompts_ready; cbn [settings];
          [now apply save_settings_writes|now rewrite He].
    + intros Ht. rewrite prompt_for_endpoint_eq. cbn [settings].
      now rewrite He, Ht.
    + intros Hmiss. split.
      * apply prompt_for_endpoint_blocks. cbn [settings]. now rewrite He.
      * intros Hs. now apply prompts_return.
Qed.

(** Switching to server mode on a fresh installation: the endpoint
    prompt opens, the user goes back to local mode, which opens the
    API-key prompt, presses "Save and continue" on a blank field and
    then enters a key. *)
Example sample_toggle_on_fresh_install :
  toggle_use_local 1700000500 [Switch; Enter "  "; Enter " sk-new "]
    (App NoFile false)
  = Some (App (JsonObject (list_to_map
                 [ ("use_local_ai", PBool true);
                   ("openai_api_key", PStr "sk-new") ])) true).
Proof. vm_compute. reflexivity. Qed.

Lemma toggle_keeps_credentials_witness :
  is_Some (toggle_use_local 1700000500
             [Switch; Enter "  "; Enter " sk-new "] (App NoFile false)).
Proof.
  apply (toggle_keeps_credentials 1700000500
           [Switch; Enter "  "; Enter " sk-new "] (App NoFile false));
    [reflexivity|].
  exists " sk-new ". split; [|vm_compute; discriminate].
  apply list_elem_of_further, list_elem_of_further, list_elem_of_here.
Defined.



(** ** The limits *)

Variable int_of_str : string → option Z.

Lemma startup_limit_range default v :
  (0 ≤ default ≤ 50)%Z → (0 ≤ startup_limit int_of_str default v ≤ 50)%Z.
Proof. intros Hd. unfold startup_limit. destruct (py_int int_of_str v); lia. Qed.

(** X8. Whatever [settings.json] holds, the two limits that startup
    computes lie between 0 and 50. *)
Theorem startup_limits_in_range (f : settings_file) :
  (0 ≤ startup_history_limit int_of_str f ≤ 50)%Z
  ∧ (0 ≤ startup_prefs_limit int_of_str f ≤ 50)%Z.
Proof.
  split; apply startup_limit_range; vm_compute; split; discriminate.
Qed.

(** X9. A limit between 0 and 50 saved from its dialog is the limit
    that the next start computes. *)
Theorem saved_limit_is_startup_limit (now : Z) (val : Z) (st : app) :
  settings st ≠ JsonOther true →
  (0 ≤ val ≤ 50)%Z →
  startup_prefs_limit int_of_str (limit_prefs_save now val st).1 = val
  ∧ (limit_prefs_save now val st).2 = val
  ∧ startup_history_limit int_of_str (limit_chat_save now val st).1 = val
  ∧ (limit_chat_save now val st).2 = val.
Proof.
  intros Hf Hval. unfold limit_prefs_save, limit_chat_save. cbn [fst snd].
  unfold startup_prefs_limit, startup_history_limit.
  rewrite load_settings_pref_lines, load_settings_history_lines.
  rewrite !stored_save_settings by exact Hf. unfold get.
  rewrite (update_pref_lines_set now
             (SaveArgs (use_local_var st) None None None None (Some val) None)
             (stored (settings st)) val eq_refl).
  rewrite (update_history_lines_set now
             (SaveArgs (use_local_var st) None None None (Some val) None None)
             (stored (settings st)) val eq_refl eq_refl).
  unfold startup_limit. simpl. repeat split; lia.
Qed.

(** X10. With the limit that startup computes, a merge never saves
    more than 50 preference entries. *)
Theorem merge_with_startup_limit
    (clock : nat → Z) (f : settings_file)
    (existing : list entry) (new_lines : list string) :
  ∃ result,
    merge_prefs clock existing new_lines (startup_prefs_limit int_of_str f)
    = Some result
    ∧ (length result ≤ 50)%nat.
Proof.
  eexists. split; [apply merge_prefs_total|].
  assert (Hr : (0 ≤ startup_prefs_limit int_of_str f ≤ 50)%Z)
    by (apply startup_limit_range; vm_compute; split; discriminate).
  rewrite enforce_limit_drop, length_drop by lia. lia.
Qed.

End DialogFacts.

Lemma saved_limit_is_startup_limit_witness :
  Dialogs.startup_prefs_limit (λ _, None)
    (Dialogs.limit_prefs_save 1700000500 7
       (Dialogs.App Sample.settings true)).1 = 7%Z.
Proof.
  apply (saved_limit_is_startup_limit (λ _, None) 1700000500 7
           (Dialogs.App Sample.settings true)); [discriminate|lia].
Defined.

(* ===================================================================== *)
(** * Properties of the conversation and of the payload                   *)
(* ===================================================================== *)

Section ChatFacts.
Import Text Presets Chat.

Lemma trim_loop_drop (limit : Z) (h : list turn) :
  (0 ≤ limit)%Z →
  trim_loop limit h = (drop (length h - Z.to_nat limit) h, false).
Proof.
  intros Hlim. induction h as [|t h IH].
  - simpl. destruct (Z.ltb_spec limit 0); [lia|reflexivity].
  - cbn [trim_loop].
    destruct (Z.ltb_spec limit (Z.of_nat (length (t :: h)))) as [Hlt|Hge];
      cbn [length] in *.
    + rewrite IH.
      replace (S (length h) - Z.to_nat limit)%nat
        with (S (length h - Z.to_nat limit)) by lia.
      reflexivity.
    + replace (S (length h) - Z.to_nat limit)%nat with 0%nat by lia.
      reflexivity.
Qed.

Lemma trim_loop_negative (limit : Z) (h : list turn) :
  (limit < 0)%Z → trim_loop limit h = ([], true).
Proof.
  intros Hlim. induction h as [|t h IH].
  - simpl. destruct (Z.ltb_spec limit 0); [reflexivity|lia].
  - cbn [trim_loop].
    destruct (Z.ltb_spec limit (Z.of_nat (length (t :: h)))); [exact IH|lia].
Qed.

Lemma trim_history_drop (limit : option Z) (h : list turn) :
  (0 ≤ default 10%Z limit)%Z →
  _trim_history limit h = drop (length h - Z.to_nat (default 10%Z limit)) h.
Proof.
  intros Hlim. unfold _trim_history. now rewrite trim_loop_drop.
Qed.

Lemma trim_history_negative (limit : Z) (h : list turn) :
  (limit < 0)%Z → _trim_history (Some limit) h = [].
Proof.
  intros Hlim. unfold _trim_history. simpl default.
  now rewrite trim_loop_negative.
Qed.

Lemma trim_history_suffix (limit : option Z) (h : list turn) :
  ∃ n, _trim_history limit h = drop n h.
Proof.
  destruct (Z.lt_ge_cases (default 10%Z limit) 0) as [Hneg|Hpos].
  - destruct limit as [l|]; [|simpl in Hneg; lia].
    exists (length h). rewrite drop_all. now apply trim_history_negative.
  - eexists. now apply trim_history_drop.
Qed.

(** X11. [_trim_history] keeps the newest turns: with an [int] limit
    that is not negative, the last [limit] of them (all when there are
    fewer); with no [int] limit, the last 10; with a negative limit,
    none. *)
Theorem trim_history_keeps_newest (limit : Z) (h : list turn) :
  ((0 ≤ limit)%Z →
   _trim_history (Some limit) h = drop (length h - Z.to_nat limit) h)
  ∧ _trim_history None h = drop (length h - 10) h
  ∧ ((limit < 0)%Z → _trim_history (Some limit) h = []).
Proof.
  split; [|split].
  - intros Hlim. now apply (trim_history_drop (Some limit)).
  - apply (trim_history_drop None). simpl. lia.
  - apply trim_history_negative.
Qed.

Lemma trim_history_keeps_newest_witness :
  _trim_history (Some 2%Z)
    [Turn "You" "a" "t1"; Turn "AI" "b" "t2"; Turn "You" "c" "t3"]
  = drop (3 - Z.to_nat 2) [Turn "You" "a" "t1"; Turn "AI" "b" "t2";
                           Turn "You" "c" "t3"]
  ∧ _trim_history (Some (-1)%Z) [Turn "You" "a" "t1"] = [].
Proof.
  split.
  - apply (trim_history_keeps_newest 2
             [Turn "You" "a" "t1"; Turn "AI" "b" "t2"; Turn "You" "c" "t3"]).
    lia.
  - apply (trim_history_keeps_newest (-1) [Turn "You" "a" "t1"]). lia.
Defined.

(** ** The personality instructions *)

Lemma personality_parts_shape (s : sliders) :
  ∃ p1 p2 p3 p4 p5 p6 rest,
    personality_parts s = p1 :: p2 :: p3 :: p4 :: p5 :: p6 :: rest
    ∧ p1 ≠ EmptyString.
Proof.
  unfold personality_parts. do 7 eexists. split; [reflexivity|].
  destruct (friendliness s =? 3)%Z; [discriminate|].
  destruct (friendliness s =? 2)%Z; [discriminate|].
  destruct (friendliness s =? 1)%Z; discriminate.
Qed.

(** The instructions are never the empty string, so the payload always
    carries them. *)
Lemma personality_not_empty (s : sliders) :
  build_personality_instructions s ≠ EmptyString.
Proof.
  unfold build_personality_instructions.
  destruct (personality_parts_shape s)
    as (p1 & p2 & p3 & p4 & p5 & p6 & rest & -> & Hp1).
  cbn [join]. destruct p1 as [|c p1]; [contradiction|]. discriminate.
Qed.

(** X12. For an age of 15 or less the instructions forbid profanity
    and do not depend on the profanity slider. *)
Theorem young_voice_never_swears (s : sliders) (r : Z) :
  (age s ≤ 15)%Z →
  personality_parts s !! 2%nat
  = Some "Do not use profanity under any circumstances; avoid coarse language due to youthful voice."
  ∧ build_personality_instructions (set_var profanity_var r s)
    = build_personality_instructions s.
Proof.
  intros Hage. unfold build_personality_instructions, personality_parts.
  cbn [set_var friendliness professionalism profanity age gender humor
       sarcasm introversion].
  destruct (Z.leb_spec (age s) 15) as [_|Hgt]; [|lia].
  split; reflexivity.
Qed.

Lemma young_voice_never_swears_witness :
  build_personality_instructions
    (set_var profanity_var 2 (Sliders 3 1 0 12 1 0 0 2))
  = build_personality_instructions (Sliders 3 1 0 12 1 0 0 2).
Proof.
  apply (young_voice_never_swears (Sliders 3 1 0 12 1 0 0 2) 2).
  simpl. lia.
Defined.

(** X13. The sentence about extroversion is added only on the branch
    where sarcasm is neither 1 nor 2: with sarcasm at 1 or 2 the
    instructions have seven sentences and do not depend on the
    extroversion slider; otherwise they have eight. *)
Theorem extroversion_needs_sarcasm_off (s : sliders) (i : Z) :
  (sarcasm s = 1%Z ∨ sarcasm s = 2%Z →
   length (personality_parts s) = 7%nat
   ∧ build_personality_instructions (set_var introversion_var i s)
     = build_personality_instructions s)
  ∧ (sarcasm s ≠ 1%Z → sarcasm s ≠ 2%Z →
     length (personality_parts s) = 8%nat).
Proof.
  unfold build_personality_instructions, personality_parts.
  cbn [set_var friendliness professionalism profanity age gender humor
       sarcasm introversion].
  split.
  - intros [-> | ->]; split; reflexivity.
  - intros H1 H2.
    destruct (Z.eqb_spec (sarcasm s) 2); [contradiction|].
    destruct (Z.eqb_spec (sarcasm s) 1); [contradiction|]. reflexivity.
Qed.

Lemma extroversion_needs_sarcasm_off_witness :
  length (personality_parts (Sliders 2 0 1 18 1 2 2 1)) = 7%nat
  ∧ length (personality_parts (Sliders 2 1 0 30 1 0 0 1)) = 8%nat.
Proof.
  split.
  - apply (extroversion_needs_sarcasm_off (Sliders 2 0 1 18 1 2 2 1) 0).
    right. reflexivity.
  - apply (extroversion_needs_sarcasm_off (Sliders 2 1 0 30 1 0 0 1) 0);
      discriminate.
Defined.

End ChatFacts.

Section PayloadFacts.
Import Text Presets Chat.

Lemma turn_message_not_system (t : turn) : role (turn_message t) ≠ "system".
Proof.
  unfold turn_message. simpl. destruct (decide (who t = "You")); discriminate.
Qed.

(** The payload in full: the two system messages, the turns, and the
    current message once more when the turns do not hold it. *)
Lemma build_payload_shape preset_label s text (h : list turn) :
  build_payload preset_label s text h
  = intro_message preset_label
    :: Message "system" (build_personality_instructions s)
    :: (turn_message <$> h)
       ++ (if has_user_message text (turn_message <$> h) then []
           else [Message "user" text]).
Proof.
  unfold build_payload.
  destruct (decide (build_personality_instructions s = EmptyString))
    as [He|_]; [now apply personality_not_empty in He|].
  cbn [app]. cbn [has_user_message existsb role intro_message].
  cbn [bool_decide decide_rel]. simpl orb.
  change (existsb _ (turn_message <$> h))
    with (has_user_message text (turn_message <$> h)).
  destruct (has_user_message text (turn_message <$> h)).
  - now rewrite app_nil_r.
  - reflexivity.
Qed.

Lemma last_turn_message text ts (h : list turn) n :
  drop n (h ++ [Turn "You" text ts]) ≠ [] →
  last (turn_message <$> drop n (h ++ [Turn "You" text ts]))
  = Some (Message "user" text).
Proof.
  intros Hne. destruct (decide (n ≤ length h)%nat) as [Hle|Hgt].
  - rewrite drop_app_le, fmap_snoc by exact Hle. now rewrite last_snoc.
  - exfalso. apply Hne, drop_ge. rewrite length_app. simpl. lia.
Qed.

(** The messages that follow the two system messages: none of them is a
    system message, and the last one is the current message. *)
Lemma payload_tail_shape limit text ts (h : list turn) :
  let kept := _trim_history limit (h ++ [Turn "You" text ts]) in
  let tail := (turn_message <$> kept)
              ++ (if has_user_message text (turn_message <$> kept) then []
                  else [Message "user" text]) in
  Forall (λ m, role m ≠ "system") tail
  ∧ last tail = Some (Message "user" text).
Proof.
  cbn zeta. destruct (trim_history_suffix limit (h ++ [Turn "You" text ts]))
    as [n ->].
  set (kept := drop n (h ++ [Turn "You" text ts])).
  split.
  - apply Forall_app. split.
    + apply Forall_fmap, Forall_forall. intros t _.
      apply turn_message_not_system.
    + destruct (has_user_message text (turn_message <$> kept));
        [constructor|]. apply Forall_singleton. discriminate.
  - destruct (has_user_message text (turn_message <$> kept)) eqn:Hhas.
    + rewrite app_nil_r. destruct kept as [|t kept'] eqn:Hk;
        [discriminate|].
      rewrite <- Hk. apply last_turn_message. unfold kept in Hk.
      rewrite Hk. discriminate.
    + apply last_snoc.
Qed.

(** X14. A blank entry sends nothing.  For any other entry, the message
    is appended to the full history, and the payload starts with the
    introduction and the personality instructions as system messages
    and ends with the message itself as a user message, whatever the
    history limit (0 and negative limits included). *)
Theorem payload_ends_with_message
    (preset_label : string) (s : sliders) (text ts : string) (st : chat) :
  (strip text = EmptyString →
   send_message preset_label s text ts st = None)
  ∧ (strip text ≠ EmptyString →
     ∃ st' payload,
       send_message preset_label s text ts st = Some (st', payload)
       ∧ full_history st' = full_history st ++ [Turn "You" text ts]
       ∧ payload !! 0%nat = Some (intro_message preset_label)
       ∧ payload !! 1%nat
         = Some (Message "system" (build_personality_instructions s))
       ∧ last payload = Some (Message "user" text)).
Proof.
  unfold send_message. split; intros Hblank.
  - destruct (decide (strip text = EmptyString)); [reflexivity|contradiction].
  - destruct (decide (strip text = EmptyString)); [contradiction|].
    eexists. eexists. split; [reflexivity|]. split; [reflexivity|].
    rewrite build_payload_shape. split; [reflexivity|]. split; [reflexivity|].
    destruct (payload_tail_shape (HISTORY_LIMIT st) text ts (history st))
      as [_ Hlast]. cbn zeta in Hlast.
    rewrite !last_cons, Hlast. reflexivity.
Qed.

Lemma payload_ends_with_message_witness :
  ∃ st' payload,
    send_message "Default AI" initial "hello" "2025-01-01 10:00:00"
      (ChatState [] [] (Some 0%Z)) = Some (st', payload)
    ∧ full_history st'
      = full_history (ChatState [] [] (Some 0%Z))
        ++ [Turn "You" "hello" "2025-01-01 10:00:00"]
    ∧ payload !! 0%nat = Some (intro_message "Default AI")
    ∧ payload !! 1%nat
      = Some (Message "system" (build_personality_instructions initial))
    ∧ last payload = Some (Message "user" "hello").
Proof.
  apply (payload_ends_with_message "Default AI" initial "hello"
           "2025-01-01 10:00:00" (ChatState [] [] (Some 0%Z))).
  vm_compute. discriminate.
Defined.

Lemma insert_idx_split (payload : list message) :
  Forall (λ m, role m = "system") (take (insert_idx payload) payload)
  ∧ (∀ m, head (drop (insert_idx payload) payload) = Some m →
          role m ≠ "system").
Proof.
  induction payload as [|m payload [IHsys IHrest]].
  - split; [constructor|]. intros m [=].
  - cbn [insert_idx]. destruct (decide (role m = "system")) as [Hm|Hm].
    + split; [now constructor|]. exact IHrest.
    + split; [constructor|]. intros m' [= <-]. exact Hm.
Qed.

(** X15. The preferences go in as a system message right after the
    leading system messages and before the first message of another
    role; the messages that were there keep their order.  A missing or
    blank preferences file leaves the payload as it is. *)
Theorem prefs_follow_system_messages
    (prefs_file : option string) (payload : list message) :
  (prefs_file = None ∨ (∃ raw, prefs_file = Some raw
                               ∧ strip raw = EmptyString) →
   insert_prefs prefs_file payload = payload)
  ∧ (∀ raw, prefs_file = Some raw → strip raw ≠ EmptyString →
     ∃ sys rest,
       payload = sys ++ rest
       ∧ insert_prefs prefs_file payload
         = sys ++ Message "system" (strip raw) :: rest
       ∧ Forall (λ m, role m = "system") sys
       ∧ (∀ m, head rest = Some m → role m ≠ "system")).
Proof.
  split.
  - intros [-> | (raw & -> & Hblank)]; [reflexivity|].
    unfold insert_prefs.
    destruct (decide (strip raw = EmptyString)); [reflexivity|contradiction].
  - intros raw -> Hraw. unfold insert_prefs.
    destruct (decide (strip raw = EmptyString)); [contradiction|].
    exists (take (insert_idx payload) payload),
      (drop (insert_idx payload) payload).
    split; [symmetry; apply take_drop|]. split; [reflexivity|].
    apply insert_idx_split.
Qed.

Lemma prefs_follow_system_messages_witness :
  ∃ sys rest,
    [Message "system" "a"; Message "user" "b"; Message "system" "c"]
    = sys ++ rest
    ∧ insert_prefs (Some " prefs ")
        [Message "system" "a"; Message "user" "b"; Message "system" "c"]
      = sys ++ Message "system" (strip " prefs ") :: rest
    ∧ Forall (λ m, role m = "system") sys
    ∧ (∀ m, head rest = Some m → role m ≠ "system").
Proof.
  apply (prefs_follow_system_messages (Some " prefs ")
           [Message "system" "a"; Message "user" "b"; Message "system" "c"]
           ).
  - reflexivity.
  - vm_compute. discriminate.
Defined.

Lemma insert_idx_two (m1 m2 : message) (tail : list message) :
  role m1 = "system" → role m2 = "system" →
  Forall (λ m, role m ≠ "system") tail → tail ≠ [] →
  insert_idx (m1 :: m2 :: tail) = 2%nat.
Proof.
  intros H1 H2 Htail Hne. cbn [insert_idx].
  destruct (decide (role m1 = "system")); [|contradiction].
  destruct (decide (role m2 = "system")); [|contradiction].
  destruct tail as [|m tail]; [contradiction|].
  apply Forall_cons in Htail as [Hm _]. cbn [insert_idx].
  destruct (decide (role m = "system")); [contradiction|reflexivity].
Qed.

(** X16. In the payload that [send_message] builds, the worker puts a
    non-blank preferences text in third place: after the introduction
    and the personality instructions, before every turn of the
    conversation; the current message stays last. *)
Theorem prefs_are_third_message
    (preset_label : string) (s : sliders) (text ts raw : string)
    (st st' : chat) (payload : list message) :
  strip raw ≠ EmptyString →
  send_message preset_label s text ts st = Some (st', payload) →
  ∃ turns,
    insert_prefs (Some raw) payload
    = intro_message preset_label
      :: Message "system" (build_personality_instructions s)
      :: Message "system" (strip raw)
      :: turns
    ∧ payload
      = intro_message preset_label
        :: Message "system" (build_personality_instructions s)
        :: turns
    ∧ Forall (λ m, role m ≠ "system") turns
    ∧ last turns = Some (Message "user" text).
Proof.
  intros Hraw. unfold send_message.
  destruct (decide (strip text = EmptyString)); [discriminate|].
  intros [= <- <-]. rewrite build_payload_shape.
  destruct (payload_tail_shape (HISTORY_LIMIT st) text ts (history st))
    as [Hroles Hlast]. cbn zeta in Hroles, Hlast.
  eexists. split; [|split; [reflexivity|split; [exact Hroles|exact Hlast]]].
  unfold insert_prefs.
  destruct (decide (strip raw = EmptyString)); [contradiction|].
  rewrite insert_idx_two; [reflexivity|reflexivity|reflexivity|exact Hroles|].
  intros Hnil. rewrite Hnil in Hlast. discriminate.
Qed.

Lemma prefs_are_third_message_witness :
  ∃ turns,
    insert_prefs (Some "likes tea")
      (build_payload "Default AI" initial "hello"
         (_trim_history (Some 0%Z) [Turn "You" "hello" "t"]))
    = intro_message "Default AI"
      :: Message "system" (build_personality_instructions initial)
      :: Message "system" (strip "likes tea")
      :: turns
    ∧ build_payload "Default AI" initial "hello"
        (_trim_history (Some 0%Z) [Turn "You" "hello" "t"])
      = intro_message "Default AI"
        :: Message "system" (build_personality_instructions initial)
        :: turns
    ∧ Forall (λ m, role m ≠ "system") turns
    ∧ last turns = Some (Message "user" "hello").
Proof.
  apply (prefs_are_third_message "Default AI" initial "hello" "t"
           "likes tea" (ChatState [] [] (Some 0%Z))
           (ChatState (_trim_history (Some 0%Z) [Turn "You" "hello" "t"])
                      [Turn "You" "hello" "t"] (Some 0%Z))).
  - vm_compute. discriminate.
  - reflexivity.
Defined.

End PayloadFacts.

Section HistoryFacts.
Import Text Presets Chat.

Lemma suffix_append_trim limit (h full : list turn) (t : turn) :
  (∃ n, h = drop n full) →
  ∃ n, _trim_history limit (h ++ [t]) = drop n (full ++ [t]).
Proof.
  intros [n ->]. destruct (trim_history_suffix limit (drop n full ++ [t]))
    as [m ->].
  destruct (decide (n ≤ length full)%nat) as [Hle|Hgt].
  - exists (n + m)%nat. rewrite <- drop_drop.
    now rewrite (drop_app_le full [t] n) by exact Hle.
  - rewrite (drop_ge full n) by lia. simpl.
    exists (length full + m)%nat. rewrite <- drop_drop.
    now rewrite drop_app_length.
Qed.

Lemma step_keeps_suffix (st : chat) (e : event) :
  (∃ n, history st = drop n (full_history st)) →
  ∃ n, history (step st e) = drop n (full_history (step st e)).
Proof.
  intros Hinv.
  destruct e as [l s text ts|l reply ts|l err ts| |now data|val]; simpl.
  - unfold send_message.
    destruct (decide (strip text = EmptyString)); [exact Hinv|].
    now apply suffix_append_trim.
  - now apply suffix_append_trim.
  - destruct (suffix_append_trim (HISTORY_LIMIT st) (history st)
                (full_history st) (Turn l err ts) Hinv) as [n Hn].
    rewrite Hn.
    destruct (trim_history_suffix (HISTORY_LIMIT st)
                (drop n (full_history st ++ [Turn l err ts]))) as [m ->].
    exists (n + m)%nat. now rewrite drop_drop.
  - now exists 0%nat.
  - now exists 0%nat.
  - exact Hinv.
Qed.

(** X17. Whatever happens to the conversation (messages sent, replies
    and errors recorded, conversations started or loaded, the limit
    changed), one event after the other, the context that is sent to
    the model is a suffix of the conversation that is shown and
    saved. *)
Theorem context_is_suffix_of_conversation (limit : Z) (events : list event) :
  ∃ n,
    history (foldl step (start limit) events)
    = drop n (full_history (foldl step (start limit) events)).
Proof.
  assert (Hstart : ∃ n, history (start limit)
                       = drop n (full_history (start limit)))
    by now exists 0%nat.
  revert Hstart. generalize (start limit).
  induction events as [|e events IH]; intros st Hst; [exact Hst|].
  simpl. apply IH. now apply step_keeps_suffix.
Qed.

(** X18. After a message is sent, or a reply or an error is recorded, the
    context holds at most [HISTORY_LIMIT] turns when that limit is a
    non-negative [int], and at most 10 when it is not an [int]. *)
Theorem context_within_limit
    (st : chat) (preset_label : string) (s : sliders)
    (text reply ts : string) :
  let bound := Z.to_nat (default 10%Z (HISTORY_LIMIT st)) in
  (0 ≤ default 10%Z (HISTORY_LIMIT st))%Z →
  (length (history (record_reply preset_label reply ts st)) ≤ bound)%nat
  ∧ (length (history (record_error preset_label reply ts st)) ≤ bound)%nat
  ∧ (∀ st' payload,
       send_message preset_label s text ts st = Some (st', payload) →
       (length (history st') ≤ bound)%nat).
Proof.
  cbn zeta. intros Hlim. split; [|split].
  - unfold record_reply. cbn [history].
    rewrite trim_history_drop, length_drop by exact Hlim. lia.
  - unfold record_error, record_reply. cbn [history HISTORY_LIMIT].
    rewrite !trim_history_drop, !length_drop by exact Hlim. lia.
  - intros st' payload. unfold send_message.
    destruct (decide (strip text = EmptyString)); [discriminate|].
    intros [= <- _]. cbn [history].
    rewrite trim_history_drop, length_drop by exact Hlim. lia.
Qed.

Lemma context_within_limit_witness :
  (length (history (record_reply "Default AI" "hi" "t2"
                      (ChatState [Turn "You" "a" "t0"; Turn "AI" "b" "t1"]
                                 [Turn "You" "a" "t0"; Turn "AI" "b" "t1"]
                                 (Some 2%Z)))) ≤ 2)%nat.
Proof.
  apply (context_within_limit
           (ChatState [Turn "You" "a" "t0"; Turn "AI" "b" "t1"]
                      [Turn "You" "a" "t0"; Turn "AI" "b" "t1"] (Some 2%Z))
           "Default AI" initial "x" "hi" "t2").
  simpl. lia.
Defined.

Lemma load_save_turns now (full : list turn) :
  omap (load_turn now) (save_conversation full) = full.
Proof.
  unfold save_conversation.
  induction full as [|[w m t] full IH]; [reflexivity|].
  rewrite fmap_cons. cbn [omap list_omap load_turn who said stamp].
  f_equal. exact IH.
Qed.

(** X19. Loading a conversation that [save_conversation] wrote gives
    back every turn with its time stamp, as the conversation and, not
    trimmed, as the context.  Of other items in a file, those with
    fewer than two fields are skipped and those with two fields get
    the current time. *)
Theorem conversation_round_trip
    (now : string) (full : list turn) (st : chat) (r m : string) :
  load_conversation_file now (save_conversation full) st
  = ChatState full full (HISTORY_LIMIT st)
  ∧ load_conversation_file now [[]; [r]; [r; m]] st
    = ChatState [Turn r m now] [Turn r m now] (HISTORY_LIMIT st).
Proof.
  unfold load_conversation_file. rewrite load_save_turns.
  split; reflexivity.
Qed.

End HistoryFacts.

(* ===================================================================== *)
(** * Properties of the preset names                                      *)
(* ===================================================================== *)

Section PresetNamesFacts.
Import Presets PresetNames.

Lemma default_items_map : list_to_map default_items = DEFAULT_PRESETS.
Proof. reflexivity. Qed.

Lemma default_items_lookup name vals :
  DEFAULT_PRESETS !! name = Some vals ↔ (name, vals) ∈ default_items.
Proof.
  rewrite <- default_items_map. symmetry. apply elem_of_list_to_map.
  apply (bool_decide_unpack _). vm_compute. exact I.
Qed.

(** The seven built-in presets, one by one. *)
Local Ltac each_builtin H :=
  unfold default_items in H;
  repeat (apply elem_of_cons in H as [H|H]; [injection H as -> ->|]);
  [..|inversion H].

Lemma sliders_from_values (s : sliders) f p x a g h c i :
  current_values s = [f; p; x; a; g; h; c; i] → s = Sliders f p x a g h c i.
Proof. destruct s. intros [= -> -> -> -> -> -> -> ->]. reflexivity. Qed.

(** X20. After startup has applied a built-in preset, that preset is
    the one that [determine_active_preset_name] reports, whatever
    files [personalities/] holds. *)
Theorem builtin_preset_is_recognised
    (name : string) (vals : list Z)
    (personalities : gmap string preset_json)
    (listing : list (string * preset_json)) (s0 : sliders) :
  DEFAULT_PRESETS !! name = Some vals →
  sliders_of vals = Some (startup_apply (Some name) personalities s0)
  ∧ determine_active_preset_name listing
      (startup_apply (Some name) personalities s0) = name.
Proof.
  intros Hin. apply default_items_lookup in Hin.
  each_builtin Hin; split; reflexivity.
Qed.

Lemma builtin_preset_is_recognised_witness :
  determine_active_preset_name [("mine", PresetList Sample.mine)]
    (startup_apply (Some "Sailor-Mouth") Sample.personalities initial)
  = "Sailor-Mouth".
Proof.
  apply (builtin_preset_is_recognised "Sailor-Mouth"
           [0; 0; 2; 30; 1; 1; 2; 0]%Z Sample.personalities
           [("mine", PresetList Sample.mine)] initial).
  reflexivity.
Defined.

(** X21. The name that [determine_active_preset_name] reports is
    justified: it is the first built-in preset whose values are the
    slider values, else a file of [personalities/] whose first eight
    values are, else ['Custom']. *)
Theorem detected_preset_is_sound
    (listing : list (string * preset_json)) (s : sliders) :
  let name := determine_active_preset_name listing s in
  (name, current_values s) ∈ default_items
  ∨ ((∀ item, item ∈ default_items → item.2 ≠ current_values s)
     ∧ ((∃ loaded, (name, loaded) ∈ listing
                   ∧ first_eight loaded = Some (current_values s))
        ∨ (name = "Custom"
           ∧ ∀ file, file ∈ listing →
                     first_eight file.2 ≠ Some (current_values s)))).
Proof.
  cbn zeta. unfold determine_active_preset_name.
  destruct (list_find (λ item, item.2 = current_values s) default_items)
    as [[i [n v]]|] eqn:Hbuiltin.
  - left. apply list_find_Some in Hbuiltin as (Hlk & Hv & _).
    simpl in Hv. subst v. eapply list_elem_of_lookup_2. exact Hlk.
  - right. apply list_find_None in Hbuiltin. rewrite Forall_forall in Hbuiltin.
    split; [exact Hbuiltin|].
    destruct (list_find (λ item, first_eight item.2 = Some (current_values s))
                listing) as [[i [n loaded]]|] eqn:Hfile.
    + left. apply list_find_Some in Hfile as (Hlk & Hv & _).
      exists loaded. split; [|exact Hv].
      eapply list_elem_of_lookup_2. exact Hlk.
    + right. split; [reflexivity|].
      apply list_find_None in Hfile. rewrite Forall_forall in Hfile.
      exact Hfile.
Qed.

Lemma dict_set_new name vals (front back : list (string * list Z)) :
  name ∉ front.*1 →
  dict_set name vals (front ++ back) = front ++ dict_set name vals back.
Proof.
  induction front as [|[k v] front IH]; intros Hname; [reflexivity|].
  simpl in Hname. apply not_elem_of_cons in Hname as [Hne Hname].
  simpl. destruct (decide (k = name)); [congruence|].
  now rewrite IH.
Qed.

(** Files that do not bear the name of a built-in preset leave the
    built-in items in front, as they were. *)
Lemma window_items_front (listing : list (string * preset_json)) :
  (∀ file, file ∈ listing → DEFAULT_PRESETS !! file.1 = None) →
  ∃ extra, window_items listing = default_items ++ extra.
Proof.
  intros Hnames. unfold window_items.
  assert (Hgen : ∀ extra, ∃ extra',
    foldl (λ items file,
             match first_eight file.2 with
             | Some vals => dict_set file.1 vals items
             | None => items
             end) (default_items ++ extra) listing
    = default_items ++ extra').
  { induction listing as [|file listing IH]; intros extra; [eauto|].
    cbn [foldl]. destruct (first_eight file.2) as [vals|].
    - rewrite dict_set_new.
      + apply IH. intros f Hf. apply Hnames. now right.
      + intros Hin. apply list_elem_of_fmap in Hin as ([k v] & Hk & Hkv).
        simpl in Hk. subst k. apply default_items_lookup in Hkv.
        rewrite Hnames in Hkv by now left. discriminate.
    - apply IH. intros f Hf. apply Hnames. now right. }
  destruct (Hgen []) as [extra' Hextra]. rewrite app_nil_r in Hextra. eauto.
Qed.

(** X22. When the Personality window is closed with the sliders at the
    values of a built-in preset, and no file of [personalities/] bears
    the name of a built-in preset, [last_selected] is that preset, and
    the next start sets the sliders to the values they had. *)
Theorem closing_on_builtin_restores_sliders
    (listing : list (string * preset_json))
    (personalities : gmap string preset_json)
    (name : string) (s s0 : sliders) :
  (∀ file, file ∈ listing → DEFAULT_PRESETS !! file.1 = None) →
  (name, current_values s) ∈ default_items →
  on_close_last_selected (window_items listing) s = name
  ∧ startup_apply
      (Some (on_close_last_selected (window_items listing) s))
      personalities s0 = s.
Proof.
  intros Hnames Hin.
  destruct (window_items_front listing Hnames) as [extra ->].
  assert (Hlast : on_close_last_selected (default_items ++ extra) s = name).
  { unfold on_close_last_selected, find_matching_preset.
    remember (current_values s) as tpl eqn:Htpl.
    assert (Hfind : ∃ i, list_find (λ item, item.2 = tpl) default_items
                         = Some (i, (name, tpl))).
    { clear Htpl. each_builtin Hin; eexists; reflexivity. }
    destruct Hfind as [i Hfind].
    rewrite (list_find_app_l _ _ _ _ _ Hfind).
    rewrite bool_decide_eq_true_2; [reflexivity|].
    rewrite fmap_app. apply elem_of_app. left.
    apply list_elem_of_fmap. now exists (name, tpl). }
  rewrite Hlast. split; [reflexivity|].
  remember (current_values s) as tpl eqn:Htpl.
  each_builtin Hin; symmetry in Htpl;
    apply sliders_from_values in Htpl; subst s; reflexivity.
Qed.

Lemma closing_on_builtin_restores_sliders_witness :
  startup_apply
    (Some (on_close_last_selected
             (window_items [("mine", PresetList Sample.mine)])
             (Sliders 3 0 0 25 1 1 0 1)))
    Sample.personalities initial
  = Sliders 3 0 0 25 1 1 0 1.
Proof.
  apply (closing_on_builtin_restores_sliders
           [("mine", PresetList Sample.mine)] Sample.personalities
           "Casual Friendly" (Sliders 3 0 0 25 1 1 0 1) initial).
  - intros file Hfile. apply list_elem_of_singleton in Hfile. subst file.
    reflexivity.
  - vm_compute. do 2 right. left.
Defined.

(** X23. A preset saved from the Personality window and applied from
    it sets the sliders to the values they had when it was saved,
    whatever the name of the file and the other files. *)
Theorem saved_preset_applies_back
    (personalities : gmap string preset_json) (fname : string)
    (s s0 : sliders) :
  apply_preset (window_presets (<[fname := saved_preset s]> personalities))
    fname s0 = s.
Proof.
  apply (window_applies_file_preset _ fname (saved_preset s)
           (current_values s)).
  - apply lookup_insert_eq.
  - reflexivity.
  - now destruct s.
Qed.

(** X24. When [last_selected] names neither a built-in preset nor a
    usable file, startup falls back to the values of ['Default AI'],
    except that the third value goes to professionalism: the sliders
    end at (2, 0, profanity as before, 30, 1, 0, 0, 1). *)
Theorem unknown_preset_falls_back
    (personalities : gmap string preset_json) (name : string)
    (s0 : sliders) :
  name ≠ EmptyString →
  DEFAULT_PRESETS !! name = None →
  (personalities !! name = None
   ∨ ∃ loaded, personalities !! name = Some loaded
               ∧ first_eight loaded = None) →
  startup_apply (Some name) personalities s0
  = Sliders 2 0 (profanity s0) 30 1 0 0 1.
Proof.
  intros Hname Hbuiltin Hfile. unfold startup_apply.
  destruct (decide (name = EmptyString)); [contradiction|].
  rewrite Hbuiltin.
  destruct Hfile as [-> | (loaded & -> & ->)]; reflexivity.
Qed.

Lemma unknown_preset_falls_back_witness :
  startup_apply (Some "Custom") Sample.personalities initial
  = Sliders 2 0 (profanity initial) 30 1 0 0 1.
Proof.
  apply (unknown_preset_falls_back Sample.personalities "Custom" initial).
  - discriminate.
  - reflexivity.
  - left. reflexivity.
Defined.

End PresetNamesFacts.

(* ===================================================================== *)
(** * Properties of preferences.json and of the extracted lines           *)
(* ===================================================================== *)

Section PrefsFileFacts.
Import Text Prefs PrefsFile.

Lemma load_serialise_lines clock1 clock2 (entries : list entry) : ∀ n m,
  line <$> load_items clock2 m (serialise clock1 n entries)
  = line <$> entries.
Proof.
  induction entries as [|e entries IH]; intros n m; [reflexivity|].
  cbn [serialise]. destruct (decide (ts e = 0%Z));
    cbn [load_items]; rewrite !fmap_cons, IH; reflexivity.
Qed.

Lemma load_serialise_stamped clock1 clock2 (entries : list entry) : ∀ n m,
  Forall (λ e, ts e ≠ 0%Z) entries →
  load_items clock2 m (serialise clock1 n entries) = entries.
Proof.
  induction entries as [|e entries IH]; intros n m Hts; [reflexivity|].
  apply Forall_cons in Hts as [He Hts]. cbn [serialise].
  destruct (decide (ts e = 0%Z)); [contradiction|].
  cbn [load_items]. rewrite IH by exact Hts. now destruct e.
Qed.

(** X25. What [save_prefs_list] writes, [load_prefs_list] reads back
    with the same lines in the same order; entries whose time stamp is
    not 0 come back unchanged (a time stamp of 0 is replaced by the
    time of saving). *)
Theorem prefs_file_round_trip
    (clock1 clock2 : nat → Z) (entries : list entry) :
  line <$> load_prefs_list clock2 (save_prefs_list clock1 entries)
  = line <$> entries
  ∧ (Forall (λ e, ts e ≠ 0%Z) entries →
     load_prefs_list clock2 (save_prefs_list clock1 entries) = entries).
Proof.
  unfold load_prefs_list, save_prefs_list.
  split; [apply load_serialise_lines|apply load_serialise_stamped].
Qed.

Lemma prefs_file_round_trip_witness :
  load_prefs_list Sample.clock
    (save_prefs_list Sample.clock
       [Entry "Likes tea" 1700000000; Entry "Name is Sam" 102])
  = [Entry "Likes tea" 1700000000; Entry "Name is Sam" 102].
Proof.
  apply (prefs_file_round_trip Sample.clock Sample.clock
           [Entry "Likes tea" 1700000000; Entry "Name is Sam" 102]).
  repeat constructor; discriminate.
Defined.

(** ** Time stamps *)

Section Stamped.

Variable clock : nat → Z.
Hypothesis clock_not_zero : ∀ n, clock n ≠ 0%Z.

Lemma loads_view_stamped ex : ∀ st l,
  Forall (λ e, ts e ≠ 0%Z) l →
  Forall (λ e, ts e ≠ 0%Z) (loads_view clock st l ex).
Proof.
  induction ex as [|item ex IH]; intros st l Hl; [exact Hl|].
  simpl. apply IH. unfold load_view.
  destruct (decide (strip (line item) = EmptyString)); [exact Hl|].
  destruct (decide (pref_key (strip (line item)) ∈ entry_key <$> l));
    [exact Hl|].
  apply Forall_app. split; [exact Hl|]. apply Forall_singleton. simpl.
  destruct (decide (ts item = 0%Z)); [apply clock_not_zero|assumption].
Qed.

Lemma applies_view_stamped news : ∀ st l,
  Forall (λ e, ts e ≠ 0%Z) l →
  Forall (λ e, ts e ≠ 0%Z) (applies_view clock st l news).
Proof.
  induction news as [|nl news IH]; intros st l Hl; [exact Hl|].
  simpl. apply IH. apply Forall_app. split.
  - apply Forall_forall. intros e He.
    apply list_elem_of_filter in He as [_ He].
    rewrite Forall_forall in Hl. now apply Hl.
  - apply Forall_singleton. simpl. apply clock_not_zero.
Qed.

(** X26. When the clock never reads 0, every entry that a merge saves
    has a time stamp other than 0, so the next [load_prefs_list] gives
    back exactly the list that the merge produced. *)
Theorem merge_result_survives_reload
    (clock1 clock2 : nat → Z)
    (existing : list entry) (new_lines : list string) (limit : Z) :
  ∃ result,
    merge_prefs clock existing new_lines limit = Some result
    ∧ Forall (λ e, ts e ≠ 0%Z) result
    ∧ load_prefs_list clock2 (save_prefs_list clock1 result) = result.
Proof.
  eexists. split; [apply merge_prefs_total|].
  assert (Hts : Forall (λ e, ts e ≠ 0%Z)
                  (enforce_limit limit (final_view clock existing new_lines))).
  { destruct (enforce_limit_suffix limit
                (final_view clock existing new_lines)) as [oldest Heq].
    assert (Hall : Forall (λ e, ts e ≠ 0%Z)
                     (final_view clock existing new_lines)).
    { unfold final_view. apply applies_view_stamped, loads_view_stamped.
      constructor. }
    rewrite Heq in Hall. now apply Forall_app in Hall as [_ Hall]. }
  split; [exact Hts|]. now apply load_serialise_stamped.
Qed.

End Stamped.

(** ** The extracted lines *)

Lemma all_chars_lstrip test s :
  all_chars test s = true → all_chars test (lstrip s) = true.
Proof.
  induction s as [|c s IH]; [reflexivity|]. intros Hs. simpl.
  destruct (is_space c); [|exact Hs].
  simpl in Hs. apply andb_true_iff in Hs as [_ Hs]. now apply IH.
Qed.

Lemma all_chars_rstrip test s :
  all_chars test s = true → all_chars test (rstrip s) = true.
Proof.
  induction s as [|c s IH]; [reflexivity|]. intros Hs.
  simpl in Hs. apply andb_true_iff in Hs as [Hc Hs].
  specialize (IH Hs). simpl. destruct (rstrip s) as [|d r].
  - destruct (is_space c); [reflexivity|]. simpl. now rewrite Hc.
  - simpl. simpl in IH. now rewrite Hc, IH.
Qed.

Lemma all_chars_strip test s :
  all_chars test s = true → all_chars test (strip s) = true.
Proof. intros Hs. now apply all_chars_lstrip, all_chars_rstrip. Qed.

Lemma splitlines_no_break_bounded (n : nat) : ∀ s,
  (String.length s ≤ n)%nat →
  Forall (λ l, all_chars (λ c, negb (is_break c)) l = true) (splitlines s).
Proof.
  induction n as [|n IH]; intros [|c s] Hlen; try constructor;
    simpl in Hlen; [lia|].
  assert (Hs : Forall (λ l, all_chars (λ c, negb (is_break c)) l = true)
                 (splitlines s)) by (apply IH; lia).
  cbn [splitlines]. destruct (is_break c) eqn:Hc.
  - constructor; [reflexivity|]. destruct s as [|c' s']; [constructor|].
    destruct ((N_of_ascii c =? 13)%N && (N_of_ascii c' =? 10)%N);
      [|exact Hs].
    apply IH. simpl in Hlen. lia.
  - destruct (splitlines s) as [|l ls].
    + apply Forall_singleton. simpl. now rewrite Hc.
    + apply Forall_cons in Hs as [Hl Hls]. constructor; [|exact Hls].
      simpl. now rewrite Hc, Hl.
Qed.

(** X27. Every line that the worker takes from the model's answer is
    not empty, has no white space at either end, and holds no line
    break. *)
Theorem extracted_lines_are_single_lines (gen_text l : string) :
  l ∈ extract_lines gen_text →
  l ≠ EmptyString
  ∧ strip l = l
  ∧ all_chars (λ c, negb (is_break c)) l = true.
Proof.
  intros Hin. unfold extract_lines in Hin.
  destruct (new_lines_clean _ _ Hin) as [Hstrip Hne].
  split; [exact Hne|]. split; [exact Hstrip|].
  unfold new_lines_of in Hin.
  apply list_elem_of_fmap in Hin as (l0 & -> & Hl0).
  apply list_elem_of_filter in Hl0 as [_ Hl0].
  apply all_chars_strip.
  pose proof (splitlines_no_break_bounded _ (strip gen_text) (le_n _)) as Hall.
  rewrite Forall_forall in Hall. now apply Hall.
Qed.

Lemma extracted_lines_are_single_lines_witness :
  "Name is Sam" ≠ EmptyString
  ∧ strip "Name is Sam" = "Name is Sam"
  ∧ all_chars (λ c, negb (is_break c)) "Name is Sam" = true.
Proof.
  apply (extracted_lines_are_single_lines
           (" Name is Sam " +:+ String (ascii_of_nat 13)
              (String (ascii_of_nat 10) "  Likes tea"))
           "Name is Sam").
  vm_compute. left.
Defined.

End PrefsFileFacts.

Lemma merge_result_survives_reload_witness :
  ∃ result,
    Prefs.merge_prefs Sample.clock Sample.existing Sample.new_lines 3
    = Some result
    ∧ Forall (λ e, Prefs.ts e ≠ 0%Z) result
    ∧ PrefsFile.load_prefs_list Sample.clock
        (PrefsFile.save_prefs_list Sample.clock result) = result.
Proof.
  apply (merge_result_survives_reload Sample.clock).
  intros n. unfold Sample.clock. lia.
Defined.

(* ===================================================================== *)
(** * More properties of the preference merge                             *)
(* ===================================================================== *)

Section MergeOrder.
Import Text Prefs PrefsFile.

Variable clock : nat → Z.

Lemma applies_view_clean news : ∀ st l,
  Forall clean l →
  Forall (λ nl, strip nl = nl ∧ nl ≠ EmptyString) news →
  Forall clean (applies_view clock st l news).
Proof.
  induction news as [|nl news IH]; intros st l Hl Hnews; [exact Hl|].
  apply Forall_cons in Hnews as [Hnl Hnews]. simpl.
  apply IH; [|exact Hnews]. apply Forall_app. split.
  - apply Forall_forall. intros e He.
    apply list_elem_of_filter in He as [_ He].
    rewrite Forall_forall in Hl. now apply Hl.
  - apply Forall_singleton. exact Hnl.
Qed.

(** X28. Every entry that a merge of extracted lines saves has a line
    that is not empty and has no white space at either end, whatever
    the stored list held. *)
Theorem merged_entries_are_clean
    (existing : list entry) (raw : list string) (limit : Z) :
  ∃ result,
    merge_prefs clock existing (new_lines_of raw) limit = Some result
    ∧ Forall (λ e, line e ≠ EmptyString ∧ strip (line e) = line e) result.
Proof.
  eexists. split; [apply merge_prefs_total|].
  assert (Hall : Forall clean (final_view clock existing (new_lines_of raw))).
  { unfold final_view. apply applies_view_clean.
    - apply loads_view_clean. constructor.
    - apply Forall_forall. intros nl Hnl. now apply (new_lines_clean raw). }
  destruct (enforce_limit_suffix limit
              (final_view clock existing (new_lines_of raw))) as [oldest Heq].
  rewrite Heq in Hall. apply Forall_app in Hall as [_ Hall].
  eapply Forall_impl; [exact Hall|]. intros e [H1 H2]. now split.
Qed.

Lemma filter_all (P : entry → Prop) `{∀ e, Decision (P e)} (l : list entry) :
  (∀ e, P e) → filter P l = l.
Proof.
  intros HP. induction l as [|a l IH]; [reflexivity|].
  now rewrite filter_cons_True, IH by apply HP.
Qed.

Lemma applies_view_order news : ∀ st l,
  ∃ newest,
    applies_view clock st l news
    = filter (λ e, entry_key e ∉ pref_key <$> news) l ++ newest
    ∧ line <$> newest = keep_last news.
Proof.
  induction news as [|nl news IH]; intros st l.
  - exists []. simpl. rewrite app_nil_r. split; [|reflexivity].
    symmetry. apply filter_all. intros e He. inversion He.
  - cbn [applies_view].
    destruct (IH (apply_line clock st nl)
                (filter (λ e, entry_key e ≠ pref_key nl) l
                 ++ [Entry nl (clock (ticks st))])) as (newest & -> & Hlines).
    rewrite filter_app, list_filter_filter.
    assert (Hold :
      filter (λ e, (entry_key e ∉ pref_key <$> news)
                   ∧ entry_key e ≠ pref_key nl) l
      = filter (λ e, entry_key e ∉ pref_key <$> (nl :: news)) l).
    { apply list_filter_iff. intros e. rewrite fmap_cons, not_elem_of_cons.
      tauto. }
    rewrite Hold. cbn [keep_last].
    destruct (decide (pref_key nl ∈ pref_key <$> news)) as [Hin|Hout].
    + exists newest. split; [|exact Hlines].
      rewrite filter_cons_False, filter_nil by (intros H; now apply H).
      now rewrite app_nil_r.
    + exists (Entry nl (clock (ticks st)) :: newest).
      split; [|now rewrite fmap_cons, Hlines].
      rewrite filter_cons_True, filter_nil by exact Hout.
      now rewrite <- app_assoc.
Qed.

(** X29. The list that a merge builds, before the limit is enforced,
    is the list as loaded without the entries whose key occurs among
    the new lines, in their order, followed by one entry per key of the
    new lines, in the order of the last line with that key. *)
Theorem merge_order (existing : list entry) (new_lines : list string) :
  ∃ loaded newest,
    merged clock existing [] = Some loaded
    ∧ merged clock existing new_lines
      = Some (filter (λ e, entry_key e ∉ pref_key <$> new_lines) loaded
              ++ newest)
    ∧ line <$> newest = keep_last new_lines.
Proof.
  destruct (applies_view_order new_lines
              (foldl (load_item clock) init existing)
              (loads_view clock init [] existing)) as (newest & Heq & Hlines).
  exists (final_view clock existing []), newest.
  rewrite !merged_total. split; [reflexivity|]. split; [|exact Hlines].
  unfold final_view at 1. now rewrite Heq.
Qed.

Lemma loads_view_app pre : ∀ st l post,
  loads_view clock st l (pre ++ post)
  = loads_view clock (foldl (load_item clock) st pre)
      (loads_view clock st l pre) post.
Proof.
  induction pre as [|x pre IH]; intros st l post; [reflexivity|].
  simpl. apply IH.
Qed.

Lemma filter_key_nil_iff (k : string) (l : list entry) :
  filter (λ e, entry_key e = k) l = [] ↔ k ∉ entry_key <$> l.
Proof.
  induction l as [|a l IH]; [split; [inversion 2|reflexivity]|].
  rewrite fmap_cons, not_elem_of_cons, filter_cons.
  destruct (decide (entry_key a = k)) as [Heq|Hne].
  - split; [discriminate|]. intros [Hk _]. congruence.
  - rewrite IH. split; [intros Hk; split; [congruence|exact Hk]|tauto].
Qed.

(** Loading items that are blank or have another key adds no entry
    under [k]. *)
Lemma loads_view_other_keys k ex : ∀ st l,
  (∀ x, x ∈ ex → strip (line x) = EmptyString
                 ∨ pref_key (strip (line x)) ≠ k) →
  filter (λ e, entry_key e = k) (loads_view clock st l ex)
  = filter (λ e, entry_key e = k) l.
Proof.
  induction ex as [|x ex IH]; intros st l Hex; [reflexivity|].
  simpl. rewrite IH by (intros y Hy; apply Hex; now right).
  unfold load_view.
  destruct (decide (strip (line x) = EmptyString)); [reflexivity|].
  destruct (decide (pref_key (strip (line x)) ∈ entry_key <$> l));
    [reflexivity|].
  rewrite filter_app, filter_cons_False, filter_nil, app_nil_r; [reflexivity|].
  unfold entry_key. simpl.
  destruct (Hex x) as [Hblank|Hkey]; [now left|contradiction|exact Hkey].
Qed.

(** Once an entry is filed under [k], loading more items leaves it the
    only one. *)
Lemma loads_view_keeps_first k e ex : ∀ st l,
  filter (λ e, entry_key e = k) l = [e] →
  filter (λ e, entry_key e = k) (loads_view clock st l ex) = [e].
Proof.
  induction ex as [|x ex IH]; intros st l Hl; [exact Hl|].
  simpl. apply IH. unfold load_view.
  destruct (decide (strip (line x) = EmptyString)); [exact Hl|].
  destruct (decide (pref_key (strip (line x)) ∈ entry_key <$> l))
    as [|Hnew]; [exact Hl|].
  rewrite filter_app, Hl, filter_cons_False, filter_nil; [reflexivity|].
  unfold entry_key at 1. simpl. intros Hk. subst k.
  apply filter_key_nil_iff in Hnew. rewrite Hnew in Hl. discriminate.
Qed.

(** X30. Of several stored items with one key, the first one wins: the
    merge keeps its stripped line, with its time stamp when that is not
    0, and skips the later ones. *)
Theorem stored_duplicates_first_wins
    (pre : list entry) (a : entry) (post : list entry) :
  strip (line a) ≠ EmptyString →
  (∀ x, x ∈ pre →
        strip (line x) = EmptyString
        ∨ pref_key (strip (line x)) ≠ pref_key (strip (line a))) →
  ∃ loaded t,
    merged clock (pre ++ a :: post) [] = Some loaded
    ∧ filter (λ e, entry_key e = pref_key (strip (line a))) loaded
      = [Entry (strip (line a)) t]
    ∧ (ts a ≠ 0%Z → t = ts a).
Proof.
  intros Ha Hpre. rewrite merged_total. unfold final_view.
  cbn [applies_view]. rewrite loads_view_app. cbn [loads_view].
  set (st1 := foldl (load_item clock) init pre).
  set (l1 := loads_view clock init [] pre).
  assert (Hnone : filter (λ e, entry_key e = pref_key (strip (line a))) l1 = []).
  { unfold l1. now rewrite loads_view_other_keys. }
  exists (loads_view clock (load_item clock st1 a) (load_view clock st1 l1 a) post),
    (if decide (ts a = 0%Z) then clock (ticks st1) else ts a).
  split; [reflexivity|]. split.
  - apply loads_view_keeps_first. unfold load_view.
    destruct (decide (strip (line a) = EmptyString)); [contradiction|].
    apply filter_key_nil_iff in Hnone as Habs.
    destruct (decide (pref_key (strip (line a)) ∈ entry_key <$> l1));
      [contradiction|].
    rewrite filter_app, Hnone, filter_cons_True, filter_nil by reflexivity.
    reflexivity.
  - intros Hts. destruct (decide (ts a = 0%Z)); [contradiction|reflexivity].
Qed.

End MergeOrder.

Lemma stored_duplicates_first_wins_witness :
  ∃ loaded t,
    Prefs.merged Sample.clock
      ([Prefs.Entry "Likes tea" 0]
       ++ Prefs.Entry " Favorite color is red" 100
          :: [Prefs.Entry "favorite color is green" 101]) [] = Some loaded
    ∧ filter (λ e, Prefs.entry_key e
                   = Text.pref_key (Text.strip " Favorite color is red"))
        loaded
      = [Prefs.Entry (Text.strip " Favorite color is red") t]
    ∧ (100%Z ≠ 0%Z → t = 100%Z).
Proof.
  apply (stored_duplicates_first_wins Sample.clock
           [Prefs.Entry "Likes tea" 0]
           (Prefs.Entry " Favorite color is red" 100)
           [Prefs.Entry "favorite color is green" 101]).
  - vm_compute. discriminate.
  - intros x Hx. apply list_elem_of_singleton in Hx. subst x. right.
    vm_compute. discriminate.
Defined.
